(** * Call routing and reservation lifecycle of the Twilio call backend

    A shallow embedding of the two controllers of the backend:

    - [Twilio]: [voiceResponse] and [incomingCall], which answer a voice
      webhook with a call-control document (TwiML);
    - [Reservation]: [createReservation], [getReservationById],
      [updateReservation] and [updateExpiredReservations], which act on the
      [CallReservation] table of [schema.prisma].

    Strings are Rocq strings, read as JavaScript strings whose code units
    are below 256.  Numbers that the handlers compute with are integers and
    are kept in [Z]. *)

From Stdlib Require Import ZArith Lia Bool List Ascii String.
From stdpp Require Import base option list gmap strings pretty fin_maps sorting.

Local Open Scope string_scope.
Local Open Scope list_scope.
Local Open Scope Z_scope.

(** ** JavaScript values and string primitives *)

Module Js.

(** The values a parsed request body or query can hold under a key.  Arrays
    and nested objects behave alike in the handlers (truthy, not a string)
    and are one constructor. *)
Inductive value : Type :=
  | Undefined
  | Null
  | Bool (b : bool)
  | Num (n : Z)
  | Str (s : string)
  | Object.

(** ToBoolean. *)
Definition truthy (v : value) : bool :=
  match v with
  | Undefined | Null => false
  | Bool b => b
  | Num n => negb (n =? 0)
  | Str s => negb (String.eqb s "")
  | Object => true
  end.

(** [a || b]. *)
Definition or (a b : value) : value := if truthy a then a else b.

(** [String(v)], as a template literal renders [${v}]. *)
Definition to_string (v : value) : string :=
  match v with
  | Undefined => "undefined"
  | Null => "null"
  | Bool true => "true"
  | Bool false => "false"
  | Num n => pretty n
  | Str s => s
  | Object => "[object Object]"
  end.

(** An absent key reads as [undefined]. *)
Definition of_option (o : option string) : value :=
  match o with
  | Some s => Str s
  | None => Undefined
  end.

(** [s.startsWith(p)]. *)
Definition startsWith (s p : string) : bool := String.prefix p s.

Fixpoint drop (n : nat) (s : string) : string :=
  match n, s with
  | O, _ => s
  | S _, EmptyString => EmptyString
  | S n', String _ s' => drop n' s'
  end.

(** [s.replace(pat, rep)] with a string pattern and a replacement free of
    [$] patterns: the first occurrence of [pat] is replaced, the rest of the
    string is kept. *)
Fixpoint replace (s pat rep : string) : string :=
  if String.prefix pat s then rep +:+ drop (String.length pat) s
  else match s with
       | EmptyString => EmptyString
       | String c s' => String c (replace s' pat rep)
       end.

(** [s.split(sep)[0]] for a one-character separator. *)
Fixpoint split_head (sep : ascii) (s : string) : string :=
  match s with
  | EmptyString => EmptyString
  | String c s' => if Ascii.eqb c sep then EmptyString
                   else String c (split_head sep s')
  end.

(** [s.padStart(n, "0")]. *)
Definition padStart0 (n : nat) (s : string) : string :=
  String.concat "" (List.repeat "0" (n - String.length s)%nat) +:+ s.

Definition is_digit (c : ascii) : bool :=
  let n := nat_of_ascii c in (48 <=? n)%nat && (n <=? 57)%nat.

Definition in_range (lo hi c : ascii) : bool :=
  (nat_of_ascii lo <=? nat_of_ascii c)%nat
  && (nat_of_ascii c <=? nat_of_ascii hi)%nat.

(** Every character of [s] passes [c]. *)
Fixpoint all (c : ascii → bool) (s : string) : bool :=
  match s with
  | EmptyString => true
  | String x s' => c x && all c s'
  end.

(** *** Regular expressions

    The fragment the handlers use: an anchored sequence [^a1 a2 ... an$] of
    quantified character classes. *)

Inductive char_class : Type :=
  | Lit (c : ascii)            (* an escaped or plain character *)
  | Range (lo hi : ascii)      (* [lo-hi] *)
  | Digit.                     (* \d *)

Definition in_class (k : char_class) (c : ascii) : bool :=
  match k with
  | Lit x => Ascii.eqb c x
  | Range lo hi => in_range lo hi c
  | Digit => is_digit c
  end.

(** A class with its repetition bounds: [x] is [(x,1,1)], [x?] is [(x,0,1)],
    [x{m,n}] is [(x,m,n)]. *)
Record atom : Type := Atom { cls : char_class; rmin : nat; rmax : nat }.

(** Greedy repetition with backtracking: take one more character of the
    class while the upper bound allows, else hand over to the rest of the
    pattern once the lower bound is met. *)
Fixpoint repeat_class (k : string → bool) (c : ascii → bool)
    (lo hi : nat) (s : string) {struct hi} : bool :=
  match hi, s with
  | S hi', String x s' => c x && repeat_class k c (Nat.pred lo) hi' s'
  | _, _ => false
  end
  || (if lo is O then k s else false).

Fixpoint match_anchored (p : list atom) : string → bool :=
  match p with
  | [] => λ s, if s is EmptyString then true else false
  | a :: p' => repeat_class (match_anchored p') (in_class (cls a))
                 (rmin a) (rmax a)
  end.

(** [/^...$/.test(s)]. *)
Definition test (p : list atom) (s : string) : bool := match_anchored p s.

(** *** parseInt *)

(** StrWhiteSpaceChar, among code units below 256: TAB, LF, VT, FF, CR,
    SP and NBSP. *)
Definition is_white (c : ascii) : bool :=
  let n := nat_of_ascii c in
  ((9 <=? n)%nat && (n <=? 13)%nat) || (n =? 32)%nat || (n =? 160)%nat.

Fixpoint trim_start (s : string) : string :=
  match s with
  | String c s' => if is_white c then trim_start s' else s
  | EmptyString => EmptyString
  end.

(** Value of a digit in radixes up to 36. *)
Definition digit_value (c : ascii) : option Z :=
  let n := Z.of_nat (nat_of_ascii c) in
  if (48 <=? n) && (n <=? 57) then Some (n - 48)
  else if (97 <=? n) && (n <=? 122) then Some (n - 87)
  else if (65 <=? n) && (n <=? 90) then Some (n - 55)
  else None.

(** Reads the longest prefix of radix-[r] digits; [None] when it is empty.
    [acc] is the value read so far, [seen] tells whether a digit was read. *)
Fixpoint read_digits (r : Z) (acc : Z) (seen : bool) (s : string)
    : option Z :=
  match s with
  | String c s' =>
      match digit_value c with
      | Some d => if d <? r then read_digits r (acc * r + d) true s'
                  else if seen then Some acc else None
      | None => if seen then Some acc else None
      end
  | EmptyString => if seen then Some acc else None
  end.

(** A leading [-] or [+] is taken off and gives the sign. *)
Definition strip_sign (s : string) : Z * string :=
  match s with
  | String c r =>
      if Ascii.eqb c "-" then (-1, r)
      else if Ascii.eqb c "+" then (1, r)
      else (1, s)
  | EmptyString => (1, s)
  end.

(** [parseInt(s, radix)]; [radix = None] is a call with one argument.
    [None] as result is NaN.  The result is the exact integer, which is
    what JavaScript computes below 2^53. *)
Definition parseInt (s : string) (radix : option Z) : option Z :=
  let s1 := trim_start s in
  let '(sign, s2) := strip_sign s1 in
  let '(r, strip) :=
    match radix with
    | None => (10, true)
    | Some r => if r =? 0 then (10, true) else (r, r =? 16)
    end in
  if (r <? 2) || (36 <? r) then None
  else
    let '(r, s3) :=
      if strip && (String.prefix "0x" s2 || String.prefix "0X" s2)
      then (16, drop 2 s2) else (r, s2) in
    (λ n, sign * n) <$> read_digits r 0 false s3.

End Js.

(** ** The voice webhook controller *)

Module Twilio.

Import Js.

(** The values of the configuration module that the handlers read:
    [config.twilio.callerId] ([None] when it is not set) and
    [config.serverUrl]. *)
Record config : Type := Config {
  twilio_callerId : option string;
  serverUrl : string
}.

(** The keys of a webhook request that the handlers read. *)
Record request : Type := Request {
  body_To : value;
  query_To : value;
  body_From : value;
  query_From : value;
  body_CallSid : value
}.

(** *** Call-control documents *)

Record say_attrs : Type := SayAttrs { voice : string; language : string }.

Record dial_attrs : Type := DialAttrs {
  d_callerId : value;
  answerOnBridge : option bool;
  timeout : option Z
}.

Record number_attrs : Type := NumberAttrs {
  statusCallbackEvent : list string;
  statusCallback : string;
  statusCallbackMethod : string
}.

Inductive noun : Type :=
  | Client (identity : string)
  | Sip (uri : string)
  | Number (attrs : number_attrs) (phoneNumber : string).

Inductive verb : Type :=
  | Say (attrs : say_attrs) (text : string)
  | Dial (attrs : dial_attrs) (nouns : list noun).

(** A [VoiceResponse] under construction: its verbs in document order. *)
Definition response : Type := list verb.

(** [response.say(attrs, text)]. *)
Definition say (r : response) (a : say_attrs) (text : string) : response :=
  r ++ [Say a text].

(** [response.dial(attrs)] appends an empty [Dial] and returns it; the
    returned object is the position of that verb in the document. *)
Definition dial (r : response) (a : dial_attrs) : response * nat :=
  (r ++ [Dial a []], length r).

(** [dial.client(..)], [dial.sip(..)], [dial.number(..)]: a noun is added to
    the [Dial] the handle points to, wherever it stands in the document. *)
Definition add_noun (n : noun) (v : verb) : verb :=
  match v with
  | Dial a ns => Dial a (ns ++ [n])
  | Say _ _ => v
  end.

Definition dial_add (r : response) (h : nat) (n : noun) : response :=
  alter (add_noun n) h r.

(** *** The logger *)

Inductive level : Type := Info | Warn | Error | Debug.

(** Modelled from the spec: the logger module ([utils/logger]) is not among
    the sources.  A call [logger.info(..)], [logger.warn(..)],
    [logger.error(..)] or [logger.debug(..)] is a signal of that level; the
    log keeps the calls in order, each with its level and message. *)
Definition log : Type := list (level * string).

Definition alice_en : say_attrs :=
  {| voice := "alice"; language := "en-US" |}.

(** What a handler leaves behind: a document sent as [text/xml], or an
    exception that leaves the handler. *)
Inductive outcome : Type :=
  | Sent (l : log) (doc : response)
  | Uncaught (l : log).

(** The body of a [try] block ends normally or throws; the log and the
    document are mutated in place, so both ends carry them. *)
Inductive attempt : Type :=
  | Done (l : log) (r : response)
  | Threw (l : log) (r : response).

(** [config.twilio.callerId || v]. *)
Definition callerId_or (cfg : config) (v : string) : string :=
  match twilio_callerId cfg with
  | Some c => if String.eqb c "" then v else c
  | None => v
  end.

(** [!config.twilio.callerId || config.twilio.callerId === ""]. *)
Definition no_callerId (cfg : config) : bool :=
  negb (truthy (of_option (twilio_callerId cfg)))
  || bool_decide (twilio_callerId cfg = Some "").

Definition isClientFrom (from : string) : bool := startsWith from "client:".

(** [const callerId = isClientFrom ? config.twilio.callerId || from : from]. *)
Definition callerId (cfg : config) (from : string) : string :=
  if isClientFrom from then callerId_or cfg from else from.

(** [/^\+?[1-9]\d{1,14}$/]. *)
Definition phone_regex : list atom :=
  [ Atom (Lit "+") 0 1; Atom (Range "1" "9") 1 1; Atom Digit 1 14 ].

Definition isPhoneNumber (to : string) : bool := test phone_regex to.

Definition status_events : list string :=
  [ "initiated"; "ringing"; "answered"; "completed" ].

Definition no_destination : string :=
  "No destination specified. Please provide a valid destination.".

(** The [try] block of [voiceResponse]. *)
Definition voice_try (cfg : config) (to : value) (callerId : string)
    (l : log) (r : response) : attempt :=
  if negb (truthy to) then
    let l := l ++ [(Warn, "No 'To' parameter provided in voice request")] in
    let r := say r alice_en no_destination in
    Done l r
  else
    match to with
    | Str to =>
        let '(l, r) :=
          if startsWith to "client:" then
            let clientId := replace to "client:" "" in
            let l := l ++ [(Info, "Dialing to client: " +:+ clientId)] in
            let '(r, d) := dial r {| d_callerId := Str callerId;
                                     answerOnBridge := Some true;
                                     timeout := Some 20 |} in
            (l, dial_add r d (Client clientId))
          else if startsWith to "sip:" then
            let l := l ++ [(Info, "Dialing to SIP: " +:+ to)] in
            let '(r, d) := dial r {| d_callerId := Str callerId;
                                     answerOnBridge := Some true;
                                     timeout := None |} in
            (l, dial_add r d (Sip to))
          else
            let isPhoneNumber := isPhoneNumber to in
            let l := l ++ [(Info, "Dialing to "
                        +:+ (if isPhoneNumber then "phone number"
                             else "client identity")
                        +:+ ": " +:+ to)] in
            let l :=
              if isPhoneNumber && no_callerId cfg then
                l ++ [(Warn, "Attempting to call a phone number without a valid callerId configured")]
              else l in
            let '(r, d) := dial r
              {| d_callerId := Str (if isPhoneNumber
                                    then callerId_or cfg callerId
                                    else callerId);
                 answerOnBridge := Some true;
                 timeout := Some 20 |} in
            if isPhoneNumber then
              let l := l ++ [(Info, "Making outbound call to phone number: "
                          +:+ to +:+ " with caller ID: "
                          +:+ callerId_or cfg callerId)] in
              (l, dial_add r d
                    (Number {| statusCallbackEvent := status_events;
                               statusCallback := serverUrl cfg +:+ "/status";
                               statusCallbackMethod := "POST" |} to))
            else
              let l := l ++ [(Info, "Making call to client: " +:+ to)] in
              (l, dial_add r d (Client to)) in
        Done (l ++ [(Debug, "Generated TwiML response for voice call")]) r
    | _ =>
        (* [to.startsWith] is not a function *)
        Threw l r
    end.

Definition error_apology : string :=
  "We encountered an error processing your call. Please try again later.".

(** [const to = req.body.To || req.query.To]. *)
Definition raw_to (req : request) : value :=
  or (body_To req) (query_To req).

(** [const from = req.body.From || req.query.From || "client:anonymous"]. *)
Definition voice_from (req : request) : value :=
  or (or (body_From req) (query_From req)) (Str "client:anonymous").

Definition voiceResponse (cfg : config) (req : request) : outcome :=
  let r : response := [] in
  let to := raw_to req in
  let from := voice_from req in
  match from with
  | Str from =>
      let callerId := callerId cfg from in
      let l := [(Info, "Voice request: To=" +:+ to_string to
                   +:+ ", From=" +:+ from +:+ ", CallerId=" +:+ callerId)] in
      match voice_try cfg to callerId l r with
      | Done l r => Sent l r
      | Threw l r =>
          let l := l ++ [(Error, "Error generating voice response")] in
          Sent l (say r alice_en error_apology)
      end
  | _ =>
      (* [from.startsWith] is not a function, outside the [try] *)
      Uncaught []
  end.

Definition no_one_available : string :=
  "Thank you for calling. No one is available right now. Please try again later.".

(** [const from = req.body.From || req.query.From || "unknown"]. *)
Definition incoming_from (req : request) : value :=
  or (or (body_From req) (query_From req)) (Str "unknown").

(** The [try] block of [incomingCall]. *)
Definition incoming_try (req : request) (l : log) (r : response) : attempt :=
  let to := raw_to req in
  let from := incoming_from req in
  let callSid := or (body_CallSid req) (Str "unknown") in
  let l := l ++ [(Info, "Incoming call from " +:+ to_string from
                   +:+ " to " +:+ to_string to
                   +:+ ", CallSid: " +:+ to_string callSid)] in
  let '(r, d) := dial r {| d_callerId := from;
                           answerOnBridge := Some true;
                           timeout := None |} in
  let no_client l r :=
    let r := say r alice_en no_one_available in
    let l := l ++ [(Info, "No specific client to route to, playing message")] in
    Done (l ++ [(Debug, "Generated TwiML response for incoming call")]) r in
  if truthy to then
    match to with
    | Str to =>
        if startsWith to "client:" then
          let clientId := replace to "client:" "" in
          let r := dial_add r d (Client clientId) in
          let l := l ++ [(Info, "Routing incoming call to client: "
                            +:+ clientId)] in
          Done (l ++ [(Debug, "Generated TwiML response for incoming call")]) r
        else no_client l r
    | _ => Threw l r
    end
  else no_client l r.

Definition incomingCall (req : request) : outcome :=
  let l := [(Info, "Incoming call request received")] in
  let r : response := [] in
  match incoming_try req l r with
  | Done l r => Sent l r
  | Threw l r =>
      let l := l ++ [(Error, "Error handling incoming call")] in
      Sent l (say r alice_en error_apology)
  end.

(** *** Reading a sent document *)

Definition dials (doc : response) : list (dial_attrs * list noun) :=
  omap (λ v, match v with Dial a ns => Some (a, ns) | Say _ _ => None end) doc.

Definition spoken (doc : response) : list string :=
  omap (λ v, match v with Say _ t => Some t | Dial _ _ => None end) doc.

Definition logged (lv : level) (l : log) : list string :=
  omap (λ e : level * string,
          match lv, e.1 with
          | Info, Info | Warn, Warn | Error, Error | Debug, Debug => Some e.2
          | _, _ => None
          end) l.

(** *** Routing decisions

    The transient [RoutingDecision] of the design: a target kind and a
    target address, read off the nouns a document dials. *)

Inductive target_kind : Type := client | sip | phone | unspecified.

Definition target (n : noun) : target_kind * string :=
  match n with
  | Client i => (client, i)
  | Sip u => (sip, u)
  | Number _ p => (phone, p)
  end.

Definition routes (doc : response) : list (target_kind * string) :=
  '(_, ns) ← dials doc; target <$> ns.

(** The phone-number pattern in words: an optional leading [+], a first
    digit 1-9, then 1 to 14 further digits. *)
Definition phone_pattern (s : string) : Prop :=
  ∃ (plus : bool) (d : ascii) (ds : string),
    s = (if plus then "+" else "") +:+ String d ds
    ∧ in_range "1" "9" d = true
    ∧ all is_digit ds = true
    ∧ (1 ≤ String.length ds ≤ 14)%nat.

(** The configured verified caller-ID number, when one is configured and
    is not empty. *)
Definition verified_number (cfg : config) : option string :=
  match twilio_callerId cfg with
  | Some c => if String.eqb c "" then None else Some c
  | None => None
  end.

Definition callerId_warning : string :=
  "Attempting to call a phone number without a valid callerId configured".


(** *** Sample requests *)

Definition webhook (to from : value) : request :=
  {| body_To := to; query_To := Undefined;
     body_From := from; query_From := Undefined;
     body_CallSid := Undefined |}.

Definition inbound (to from sid : value) : request :=
  {| body_To := to; query_To := Undefined;
     body_From := from; query_From := Undefined;
     body_CallSid := sid |}.

Definition unverified : config :=
  {| twilio_callerId := None; serverUrl := "https://calls.example.org" |}.

Definition verified : config :=
  {| twilio_callerId := Some "+15005550006";
     serverUrl := "https://calls.example.org" |}.

End Twilio.

(** ** The reservation controller *)

Module Reservation.

Import Js.

(** The handlers act on the table through the storage client and answer
    with a JSON envelope.  Their logger calls write to a sink that no
    handler reads and are left out. *)

(** *** The CallReservation table

    [model CallReservation] of [schema.prisma].  The primary key [id] is the
    key of the table; the remaining columns make up a row. *)

Record columns : Type := Columns {
  username : string;
  reservationDate : string;      (* YYYY-MM-DD *)
  startTime : string;            (* HH:MM *)
  endTime : string;              (* HH:MM *)
  status : string;               (* @default("scheduled") *)
  phoneNumber : option string;
  callDuration : option Z;
  createdAt : Z;                 (* @default(now()) *)
  updatedAt : Z                  (* @updatedAt *)
}.

(** A record as the client returns it. *)
Record CallReservation : Type := mkReservation { id : Z; cols : columns }.

(** The table and its [autoincrement()] sequence. *)
Record db : Type := Db { rows : gmap Z columns; next_id : Z }.

(** What the storage client throws. *)
Inductive storage_error : Type :=
  | ValidationFailed      (* the arguments do not fit the schema *)
  | RecordNotFound        (* an update names no row *)
  | UniqueViolation.      (* a primary key is taken *)

(** The [data] of an update.  The id and [createdAt] are fixed at creation
    and [updatedAt] is kept by the store; of the other columns, one is
    written when it is supplied, and [undefined] leaves it alone.  Nullable
    columns can be set to null. *)
Record update_data : Type := UpdateData {
  u_username : option string;
  u_reservationDate : option string;
  u_startTime : option string;
  u_endTime : option string;
  u_status : option string;
  u_phoneNumber : option (option string);
  u_callDuration : option (option Z)
}.

Definition no_data : update_data :=
  UpdateData None None None None None None None.

(** The row after an update at instant [ts]: supplied columns are replaced
    and [updatedAt] is refreshed. *)
Definition apply_data (d : update_data) (ts : Z) (c : columns) : columns :=
  {| username := default (username c) (u_username d);
     reservationDate := default (reservationDate c) (u_reservationDate d);
     startTime := default (startTime c) (u_startTime d);
     endTime := default (endTime c) (u_endTime d);
     status := default (status c) (u_status d);
     phoneNumber := default (phoneNumber c) (u_phoneNumber d);
     callDuration := default (callDuration c) (u_callDuration d);
     createdAt := createdAt c;
     updatedAt := ts |}.

(** Modelled from the spec: the storage client ([utils/prisma]) is not
    among the sources; its operations follow the data model of the design
    and [schema.prisma].  [prisma.callReservation.findUnique({ where: { id }
    })] reads the record of an id, if there is one. *)
Definition findUnique (i : Z) (s : db) : option CallReservation :=
  mkReservation i <$> rows s !! i.

(** Modelled from the spec: [prisma.callReservation.findMany({ where })]
    reads the records that match, in storage order. *)
Definition findMany (where_ : CallReservation → bool) (s : db)
    : list CallReservation :=
  filter (λ r, where_ r) (uncurry mkReservation <$> map_to_list (rows s)).

(** Modelled from the spec: [prisma.callReservation.update({ where: { id },
    data })] merges the data into the record of the id and returns it; it
    throws when no record has the id. *)
Definition update (i : Z) (d : update_data) (ts : Z) (s : db)
    : db * (storage_error + CallReservation) :=
  match rows s !! i with
  | None => (s, inl RecordNotFound)
  | Some c =>
      let c' := apply_data d ts c in
      (Db (<[i := c']> (rows s)) (next_id s), inr (mkReservation i c'))
  end.

(** The five values [createReservation] hands to [create]. *)
Record create_data : Type := CreateData {
  c_username : value;
  c_reservationDate : value;
  c_startTime : value;
  c_endTime : value;
  c_phoneNumber : value
}.

(** A required [String] column takes a string only. *)
Definition as_string (v : value) : option string :=
  match v with Str s => Some s | _ => None end.

(** An optional [String?] column takes a string, null, or nothing. *)
Definition as_string_opt (v : value) : option (option string) :=
  match v with
  | Str s => Some (Some s)
  | Null | Undefined => Some None
  | _ => None
  end.

(** Modelled from the spec: [prisma.callReservation.create({ data })]
    stores a new record under the next id of the sequence; the columns that
    are not supplied take their defaults.  It throws on a value that does
    not fit its column. *)
Definition create (d : create_data) (ts : Z) (s : db)
    : db * (storage_error + CallReservation) :=
  match as_string (c_username d), as_string (c_reservationDate d),
        as_string (c_startTime d), as_string (c_endTime d),
        as_string_opt (c_phoneNumber d) with
  | Some u, Some rd, Some st, Some et, Some ph =>
      let i := next_id s in
      let c := {| username := u; reservationDate := rd; startTime := st;
                  endTime := et; status := "scheduled"; phoneNumber := ph;
                  callDuration := None; createdAt := ts; updatedAt := ts |} in
      if bool_decide (is_Some (rows s !! i)) then
        (Db (rows s) (i + 1), inl UniqueViolation)
      else
        (Db (<[i := c]> (rows s)) (i + 1), inr (mkReservation i c))
  | _, _, _, _, _ => (s, inl ValidationFailed)
  end.

(** *** Replies *)

Inductive payload : Type :=
  | One (r : CallReservation)
  | Many (rs : list CallReservation).

(** The JSON envelope with its HTTP status. *)
Record reply : Type := Reply {
  code : Z;
  success : bool;
  message : option string;
  data : option payload;
  error : option storage_error
}.

Definition handleError (e : storage_error) (msg : string) : reply :=
  {| code := 500; success := false; message := Some msg;
     data := None; error := Some e |}.

(** *** Handlers *)

(** A parsed JSON body: an object read by key. *)
Definition field (body : gmap string value) (k : string) : value :=
  default Undefined (body !! k).

Definition createReservation (body : gmap string value) (ts : Z) (s : db)
    : db * reply :=
  let username := field body "username" in
  let reservationDate := field body "reservationDate" in
  let startTime := field body "startTime" in
  let endTime := field body "endTime" in
  let phoneNumber := field body "phoneNumber" in
  if negb (truthy username) || negb (truthy reservationDate)
     || negb (truthy startTime) || negb (truthy endTime) then
    (s, {| code := 400; success := false;
           message := Some "Missing required fields: username, reservationDate, startTime, and endTime are required";
           data := None; error := None |})
  else
    match create (CreateData username reservationDate startTime endTime
                    phoneNumber) ts s with
    | (s', inr reservation) =>
        (s', {| code := 201; success := true; message := None;
                data := Some (One reservation); error := None |})
    | (s', inl e) => (s', handleError e "Failed to create reservation")
    end.

Definition getReservationById (id : string) (s : db) : reply :=
  if String.eqb id "" then
    {| code := 400; success := false;
       message := Some "Missing ID parameter"; data := None; error := None |}
  else
    match parseInt id (Some 10) with
    | None =>
        {| code := 400; success := false;
           message := Some "Invalid ID format - must be a number";
           data := None; error := None |}
    | Some parsedId =>
        match findUnique parsedId s with
        | None =>
            {| code := 404; success := false;
               message := Some "Reservation not found";
               data := None; error := None |}
        | Some reservation =>
            {| code := 200; success := true; message := None;
               data := Some (One reservation); error := None |}
        end
    end.

(** The body of an update request as the storage client reads
    [{ status, callDuration, ...otherData }]: data that fits the columns it
    can write, or an object it refuses (a key that is no such column, a
    value of the wrong type). *)
Inductive update_body : Type :=
  | Fits (d : update_data)
  | Misfit.

Definition updateReservation (id : string) (body : update_body) (ts : Z)
    (s : db) : db * reply :=
  let parsed_id := parseInt id None in
  let attempt :=
    match parsed_id, body with
    | Some i, Fits d => update i d ts s
    | _, _ => (s, inl ValidationFailed)   (* a NaN id, a refused body *)
    end in
  match attempt with
  | (s', inr reservation) =>
      (s', {| code := 200; success := true; message := None;
              data := Some (One reservation); error := None |})
  | (s', inl e) => (s', handleError e "Failed to update reservation")
  end.

(** The reading of the clock that [updateExpiredReservations] takes:
    [now.toISOString()], [now.getHours()] and [now.getMinutes()]. *)
Record clock : Type := Clock { iso : string; hours : nat; minutes : nat }.

Definition today (now : clock) : string := split_head "T" (iso now).

Definition currentTime (now : clock) : string :=
  padStart0 2 (pretty (hours now)) +:+ ":"
  +:+ padStart0 2 (pretty (minutes now)).

(** The [lt] filter on a text column: the store's order of text, taken
    code unit by code unit. *)
Definition lt (a b : string) : bool := String.ltb a b.

(** The [where] of the sweep's query. *)
Definition expired_where (today currentTime : string) (r : CallReservation)
    : bool :=
  String.eqb (status (cols r)) "ongoing"
  && (lt (reservationDate (cols r)) today
      || (String.eqb (reservationDate (cols r)) today
          && lt (endTime (cols r)) currentTime)).

(** [reservation.callDuration || 0]. *)
Definition callDuration_or_0 (r : CallReservation) : Z :=
  match callDuration (cols r) with
  | Some n => if n =? 0 then 0 else n
  | None => 0
  end.

(** The data of the sweep's update for one found record. *)
Definition completed_data (r : CallReservation) : update_data :=
  UpdateData None None None None (Some "completed") None
    (Some (Some (callDuration_or_0 r))).

(** [expiredReservations.map(async r => update(..))]: every update is
    issued, whatever becomes of the others. *)
Fixpoint update_each (found : list CallReservation) (ts : Z) (s : db)
    : db * list (storage_error + CallReservation) :=
  match found with
  | [] => (s, [])
  | r :: rest =>
      let '(s, res) := update (id r) (completed_data r) ts s in
      let '(s, ress) := update_each rest ts s in
      (s, res :: ress)
  end.

(** [Promise.all]: the values in order, or the first rejection. *)
Fixpoint promise_all {E A} (l : list (E + A)) : E + list A :=
  match l with
  | [] => inr []
  | inl e :: _ => inl e
  | inr a :: rest =>
      match promise_all rest with
      | inl e => inl e
      | inr as_ => inr (a :: as_)
      end
  end.

Definition updateExpiredReservations (now : clock) (ts : Z) (s : db)
    : db * reply :=
  let today := today now in
  let currentTime := currentTime now in
  let expiredReservations := findMany (expired_where today currentTime) s in
  if (length expiredReservations =? 0)%nat then
    (s, {| code := 200; success := true;
           message := Some "No expired reservations found";
           data := Some (Many []); error := None |})
  else
    let '(s', results) := update_each expiredReservations ts s in
    match promise_all results with
    | inr updatedReservations =>
        (s', {| code := 200; success := true;
                message := Some ("Updated "
                  +:+ pretty (length updatedReservations)
                  +:+ " expired reservations");
                data := Some (Many updatedReservations); error := None |})
    | inl e => (s', handleError e "Failed to update expired reservations")
    end.

(** *** Vocabulary of the design *)

(** A text value is before another in the store's order. *)
Definition before (a b : string) : Prop := lt a b = true.

(** An ongoing reservation whose day is past, or whose end time today is
    past. *)
Definition is_expired (today now : string) (c : columns) : Prop :=
  status c = "ongoing"
  ∧ (before (reservationDate c) today
     ∨ (reservationDate c = today ∧ before (endTime c) now)).

(** The transition to [completed] at instant [ts]: the call duration keeps
    its value, or becomes 0 when it is unset. *)
Definition completed (ts : Z) (c : columns) : columns :=
  {| username := username c;
     reservationDate := reservationDate c;
     startTime := startTime c;
     endTime := endTime c;
     status := "completed";
     phoneNumber := phoneNumber c;
     callDuration := Some (default 0 (callDuration c));
     createdAt := createdAt c;
     updatedAt := ts |}.

(** The record as a sweep at [ts] returns it. *)
Definition swept (ts : Z) (r : CallReservation) : CallReservation :=
  mkReservation (id r) (completed ts (cols r)).

(** The successful empty result of a sweep. *)
Definition nothing_expired : reply :=
  {| code := 200; success := true;
     message := Some "No expired reservations found";
     data := Some (Many []); error := None |}.

Definition not_found : reply :=
  {| code := 404; success := false;
     message := Some "Reservation not found";
     data := None; error := None |}.

Definition found (r : CallReservation) : reply :=
  {| code := 200; success := true; message := None;
     data := Some (One r); error := None |}.

(** The value of a string of decimal digits. *)
Fixpoint decimal_from (acc : Z) (ds : string) : Z :=
  match ds with
  | EmptyString => acc
  | String c ds' =>
      decimal_from (acc * 10 + (Z.of_nat (nat_of_ascii c) - 48)) ds'
  end.

Definition decimal (ds : string) : Z := decimal_from 0 ds.

Definition digits (ds : string) : Prop :=
  ds ≠ "" ∧ all is_digit ds = true.



(** Where the reading of digits stops: at the end of the string or before
    a character that is no decimal digit. *)
Definition stops (g : string) : Prop :=
  match g with
  | EmptyString => True
  | String c _ => is_digit c = false
  end.


(** Every id in the table was drawn from the sequence, which starts at 1. *)
Definition ids_positive (s : db) : Prop :=
  ∀ i, is_Some (rows s !! i) → 0 < i.

(** A table as the handlers build it from the empty one: ids are drawn
    from a sequence that starts at 1 and only grows. *)
Definition serial (s : db) : Prop := ids_positive s ∧ 0 < next_id s.

Definition empty_db : db := {| rows := ∅; next_id := 1 |}.

(** The keys of a body that [createReservation] reads. *)
Definition create_keys : list string :=
  [ "username"; "reservationDate"; "startTime"; "endTime"; "phoneNumber" ].

(** *** Sample data *)

Definition ann : columns :=
  {| username := "ann"; reservationDate := "2025-01-09";
     startTime := "09:00"; endTime := "10:00"; status := "ongoing";
     phoneNumber := None; callDuration := None;
     createdAt := 1000; updatedAt := 1000 |}.

Definition bob : columns :=
  {| username := "bob"; reservationDate := "2025-01-10";
     startTime := "09:00"; endTime := "10:00"; status := "ongoing";
     phoneNumber := Some "+14155551234"; callDuration := Some 42;
     createdAt := 2000; updatedAt := 2500 |}.

Definition cyd : columns :=
  {| username := "cyd"; reservationDate := "2025-01-10";
     startTime := "11:00"; endTime := "11:30"; status := "ongoing";
     phoneNumber := None; callDuration := None;
     createdAt := 3000; updatedAt := 3000 |}.

Definition sample_db : db :=
  {| rows := <[1 := ann]> (<[2 := bob]> (<[12 := cyd]> ∅)); next_id := 13 |}.

Definition sample_clock : clock :=
  {| iso := "2025-01-10T10:30:00.000Z"; hours := 10; minutes := 30 |}.

Definition plain_body : gmap string value :=
  <["username" := Str "dee"]> (<["reservationDate" := Str "2025-01-10"]>
  (<["startTime" := Str "09:00"]> (<["endTime" := Str "10:00"]> ∅))).

Definition stuffed_body : gmap string value :=
  <["status" := Str "completed"]> (<["callDuration" := Num 900]>
  (<["callSid" := Str "CA42"]> (<["id" := Num 7]> plain_body))).

End Reservation.

(** ** The reservation routes as one service *)

Module Api.

Import Js Reservation.

(** [orderBy: { reservationDate: "asc" }]: ascending in the store's order
    of text. *)
Definition date_le (a b : CallReservation) : Prop :=
  String.le (reservationDate (cols a)) (reservationDate (cols b)).

#[global] Instance date_le_dec : RelDecision date_le :=
  λ a b, String.le_dec (reservationDate (cols a)) (reservationDate (cols b)).

(** The [where: { username }] of the listing. *)
Definition of_user (username : string) (r : CallReservation) : bool :=
  String.eqb (Reservation.username (cols r)) username.

(** Modelled from the spec: [prisma.callReservation.findMany({ where,
    orderBy })] reads the records that match, in ascending order of the
    reservation date. *)
Definition findManyByDate (where_ : CallReservation → bool) (s : db)
    : list CallReservation :=
  merge_sort date_le (findMany where_ s).

Definition getUserReservations (username : string) (s : db) : reply :=
  let reservations := findManyByDate (of_user username) s in
  {| code := 200; success := true; message := None;
     data := Some (Many reservations); error := None |}.

(** A request to one of the five routes of the reservation router, with
    the instant the store stamps on a write. *)
Inductive call : Type :=
  | PostRoot (body : gmap string value) (ts : Z)          (* POST / *)
  | GetUser (username : string)                 (* GET /user/:username *)
  | GetId (id : string)                                   (* GET /:id *)
  | PutId (id : string) (body : update_body) (ts : Z)     (* PUT /:id *)
  | PostUpdateExpired (now : clock) (ts : Z).   (* POST /update-expired *)

Definition serve (c : call) (s : db) : db * reply :=
  match c with
  | PostRoot body ts => createReservation body ts s
  | GetUser username => (s, getUserReservations username s)
  | GetId id => (s, getReservationById id s)
  | PutId id body ts => updateReservation id body ts s
  | PostUpdateExpired now ts => updateExpiredReservations now ts s
  end.

(** The table after a sequence of requests. *)
Fixpoint run (cs : list call) (s : db) : db :=
  match cs with
  | [] => s
  | c :: cs' => run cs' (serve c s).1
  end.






(** One of the four required keys is missing or holds a falsy value. *)
Definition incomplete (body : gmap string value) : Prop :=
  ∃ k, k ∈ [ "username"; "reservationDate"; "startTime"; "endTime" ]
       ∧ truthy (field body k) = false.

(** A time of day as [updateExpiredReservations] writes the clock's: two
    digits, a colon, two digits. *)
Definition hhmm (h m : nat) : string :=
  padStart0 2 (pretty h) +:+ ":" +:+ padStart0 2 (pretty m).

(** The decimal digit of a number below ten. *)
Definition digit_char (k : nat) : ascii := ascii_of_nat (48 + k).

(** *** Sample requests *)

Definition dee_body : gmap string value :=
  <["phoneNumber" := Str "+14155550000"]> plain_body.

Definition sample_calls : list call :=
  [ PostRoot dee_body 100;
    PutId "1" (Fits (UpdateData None None None None (Some "ongoing")
                       None None)) 200;
    PostUpdateExpired sample_clock 300;
    GetId "1" ].

End Api.

(** ** Facts about the string primitives *)

Module JsFacts.

Import Js.

Lemma app_nil (s : string) : "" +:+ s = s.
Proof. reflexivity. Qed.

Lemma app_cons (c : ascii) (s t : string) :
  String c s +:+ t = String c (s +:+ t).
Proof. reflexivity. Qed.

Ltac app_norm := rewrite ?app_cons, ?app_nil in *.

Lemma app_empty_r (s : string) : s +:+ "" = s.
Proof. induction s; app_norm; [done | by f_equal]. Qed.

Lemma prefix_cons (c x : ascii) (p s : string) :
  String.prefix (String c p) (String x s)
  = if ascii_dec c x then String.prefix p s else false.
Proof. reflexivity. Qed.

Lemma startsWith_app (p r : string) : startsWith (p +:+ r) p = true.
Proof.
  unfold startsWith. induction p as [|c p IH]; app_norm; simpl.
  - by destruct r.
  - destruct (ascii_dec c c); [exact IH | done].
Qed.

Lemma startsWith_drop (p s : string) :
  startsWith s p = true → s = p +:+ drop (String.length p) s.
Proof.
  unfold startsWith. revert s. induction p as [|c p IH]; intros s H.
  - done.
  - destruct s as [|x s]; simpl in H; [done|].
    destruct (ascii_dec c x) as [->|]; [|done].
    app_norm. simpl. f_equal. by apply IH.
Qed.

Lemma drop_app (p r : string) : drop (String.length p) (p +:+ r) = r.
Proof. induction p; app_norm; simpl; auto. Qed.

(** Replacing a pattern the string starts with removes that prefix. *)
Lemma replace_startsWith (s p rep : string) :
  startsWith s p = true →
  replace s p rep = rep +:+ drop (String.length p) s.
Proof.
  unfold startsWith. intros H. destruct s; cbn [replace]; by rewrite H.
Qed.

Lemma replace_prefix (p r : string) : replace (p +:+ r) p "" = r.
Proof.
  rewrite replace_startsWith by apply startsWith_app.
  app_norm. apply drop_app.
Qed.

Lemma length_app (a b : string) :
  String.length (a +:+ b) = (String.length a + String.length b)%nat.
Proof. induction a; app_norm; simpl; auto. Qed.

(** What a bounded repetition accepts: a run of the class, of a length
    within the bounds, followed by something the continuation accepts. *)
Lemma repeat_class_spec (k : string → bool) (c : ascii → bool)
    (lo hi : nat) (s : string) :
  repeat_class k c lo hi s = true
  ↔ ∃ pre post, s = pre +:+ post
      ∧ (lo ≤ String.length pre ≤ hi)%nat
      ∧ all c pre = true ∧ k post = true.
Proof.
  revert lo s. induction hi as [|hi IH]; intros lo s.
  - simpl. split.
    + destruct lo; [|done]. intros H. exists "", s. simpl. repeat split; auto.
    + intros (pre & post & -> & [Hlo Hhi] & _ & Hk).
      destruct pre; simpl in *; [|lia]. by destruct lo; [|lia].
  - cbn [repeat_class]. rewrite orb_true_iff. split.
    + intros [H|H].
      * destruct s as [|x s]; [done|].
        apply andb_true_iff in H as [Hx H].
        apply IH in H as (pre & post & -> & [Hlo Hhi] & Hall & Hk).
        exists (String x pre), post. simpl. rewrite Hx, Hall.
        repeat split; auto; lia.
      * destruct lo; [|done]. exists "", s. simpl.
        repeat split; auto; lia.
    + intros (pre & post & -> & [Hlo Hhi] & Hall & Hk).
      destruct pre as [|x pre]; app_norm; simpl in *.
      * right. by destruct lo; [|lia].
      * left. apply andb_true_iff in Hall as [Hx Hall]. rewrite Hx. simpl.
        apply IH. exists pre, post. repeat split; auto; lia.
Qed.

End JsFacts.

(** ** The voice webhook controller: routing *)

Module TwilioFacts.

Import Js JsFacts Twilio.

(** The regular expression of [voiceResponse] accepts exactly the strings
    of the phone-number pattern. *)
Lemma isPhoneNumber_pattern (t : string) :
  isPhoneNumber t = true ↔ phone_pattern t.
Proof.
  unfold isPhoneNumber, test, phone_regex, phone_pattern.
  cbn [match_anchored cls rmin rmax]. rewrite repeat_class_spec. split.
  - intros (p1 & q1 & -> & [_ H1] & Hp1 & Hk1).
    apply repeat_class_spec in Hk1 as (p2 & q2 & -> & [L2 U2] & Hp2 & Hk2).
    apply repeat_class_spec in Hk2 as (p3 & q3 & -> & [L3 U3] & Hp3 & Hk3).
    destruct q3; [|done]. rewrite app_empty_r.
    destruct p2 as [|d [|? ?]]; simpl in L2, U2; try lia.
    simpl in Hp2. rewrite andb_true_r in Hp2.
    destruct p1 as [|c [|? ?]]; simpl in H1; try lia.
    + exists false, d, p3. by app_norm.
    + simpl in Hp1. rewrite andb_true_r in Hp1.
      apply Ascii.eqb_eq in Hp1 as ->. exists true, d, p3. by app_norm.
  - intros (plus & d & ds & -> & Hd & Hds & Hlen).
    exists (if plus then "+" else ""), (String d ds).
    split; [done|]. split; [destruct plus; simpl; lia|].
    split; [by destruct plus|].
    apply repeat_class_spec. exists (String d ""), ds. app_norm.
    split; [done|]. split; [simpl; lia|]. split; [simpl; by rewrite Hd|].
    apply repeat_class_spec. exists ds, "". rewrite app_empty_r.
    repeat split; auto; lia.
Qed.

Lemma not_phone_pattern (t : string) :
  isPhoneNumber t = false ↔ ¬ phone_pattern t.
Proof.
  rewrite <- isPhoneNumber_pattern. by destruct (isPhoneNumber t).
Qed.

Lemma truthy_str (t : string) : truthy (Str t) = true ↔ t ≠ "".
Proof.
  simpl. destruct (String.eqb_spec t ""); simpl; split; congruence.
Qed.

(** *** The five ways through [voiceResponse]

    Each lemma gives the document sent on one branch, with what was logged
    at the warning and error levels. *)

Section branches.
Variables (cfg : config) (req : request) (from : string).
Hypothesis Hfrom : voice_from req = Str from.

Lemma voice_no_destination :
  truthy (raw_to req) = false →
  ∃ l, voiceResponse cfg req = Sent l [Say alice_en no_destination]
       ∧ logged Error l = [].
Proof using Hfrom.
  intros Hto. unfold voiceResponse, voice_try. rewrite Hfrom, Hto.
  eexists. split; reflexivity.
Qed.

Variable t : string.
Hypothesis Hto : raw_to req = Str t.
Hypothesis Hne : t ≠ "".

Lemma voice_client_prefix :
  startsWith t "client:" = true →
  ∃ l, voiceResponse cfg req =
         Sent l [Dial {| d_callerId := Str (callerId cfg from);
                         answerOnBridge := Some true;
                         timeout := Some 20 |}
                      [Client (replace t "client:" "")]]
       ∧ logged Error l = [] ∧ logged Warn l = [].
Proof using Hfrom Hto Hne.
  intros H. apply truthy_str in Hne.
  unfold voiceResponse, voice_try. rewrite Hfrom, Hto, Hne, H.
  eexists. repeat split; reflexivity.
Qed.

Lemma voice_sip_prefix :
  startsWith t "client:" = false → startsWith t "sip:" = true →
  ∃ l, voiceResponse cfg req =
         Sent l [Dial {| d_callerId := Str (callerId cfg from);
                         answerOnBridge := Some true;
                         timeout := None |}
                      [Sip t]]
       ∧ logged Error l = [] ∧ logged Warn l = [].
Proof using Hfrom Hto Hne.
  intros H1 H2. apply truthy_str in Hne.
  unfold voiceResponse, voice_try. rewrite Hfrom, Hto, Hne, H1, H2.
  eexists. repeat split; reflexivity.
Qed.

Lemma voice_phone_number :
  startsWith t "client:" = false → startsWith t "sip:" = false →
  isPhoneNumber t = true →
  ∃ l, voiceResponse cfg req =
         Sent l [Dial {| d_callerId :=
                           Str (callerId_or cfg (callerId cfg from));
                         answerOnBridge := Some true;
                         timeout := Some 20 |}
                      [Number {| statusCallbackEvent := status_events;
                                 statusCallback :=
                                   serverUrl cfg +:+ "/status";
                                 statusCallbackMethod := "POST" |} t]]
       ∧ logged Error l = []
       ∧ logged Warn l =
           if no_callerId cfg
           then ["Attempting to call a phone number without a valid callerId configured"]
           else [].
Proof using Hfrom Hto Hne.
  intros H1 H2 H3. apply truthy_str in Hne.
  unfold voiceResponse, voice_try. rewrite Hfrom, Hto, Hne, H1, H2, H3.
  destruct (no_callerId cfg); eexists; repeat split; reflexivity.
Qed.

Lemma voice_bare_identifier :
  startsWith t "client:" = false → startsWith t "sip:" = false →
  isPhoneNumber t = false →
  ∃ l, voiceResponse cfg req =
         Sent l [Dial {| d_callerId := Str (callerId cfg from);
                         answerOnBridge := Some true;
                         timeout := Some 20 |}
                      [Client t]]
       ∧ logged Error l = [] ∧ logged Warn l = [].
Proof using Hfrom Hto Hne.
  intros H1 H2 H3. apply truthy_str in Hne.
  unfold voiceResponse, voice_try. rewrite Hfrom, Hto, Hne, H1, H2, H3.
  eexists. repeat split; reflexivity.
Qed.

End branches.

Lemma not_elem_of_spoken_dial (x : string) (a : dial_attrs) (ns : list noun) :
  x ∉ spoken [Dial a ns].
Proof. cbn. apply not_elem_of_nil. Qed.

(** C1: for every raw destination string (or none), [voiceResponse] sends
    a document with exactly one routing decision and never takes its error
    path: no destination gives the spoken "no destination" fallback and
    dials nothing; a [client:] prefix dials the client named by the rest of
    the string; otherwise a [sip:] prefix dials the whole string as a SIP
    address; otherwise a string of the phone-number pattern is dialled as a
    phone number; anything else is dialled as a client under its own
    name. *)
Theorem voiceResponse_classifies (cfg : config) (req : request)
    (from : string) (to : option string) :
  voice_from req = Str from →
  raw_to req = of_option to →
  ∃ l doc,
    voiceResponse cfg req = Sent l doc
    ∧ logged Error l = [] ∧ (error_apology ∉ spoken doc)
    ∧ (to = None ∨ to = Some "" →
         routes doc = [] ∧ dials doc = [] ∧ spoken doc = [no_destination])
    ∧ (∀ t, to = Some t → t ≠ "" →
         spoken doc = [] ∧ ∃ d, routes doc = [d])
    ∧ (∀ rest, to = Some ("client:" +:+ rest) →
         routes doc = [(client, rest)])
    ∧ (∀ t, to = Some t → startsWith t "client:" = false →
         startsWith t "sip:" = true → routes doc = [(sip, t)])
    ∧ (∀ t, to = Some t → startsWith t "client:" = false →
         startsWith t "sip:" = false → phone_pattern t →
         routes doc = [(phone, t)])
    ∧ (∀ t, to = Some t → t ≠ "" → startsWith t "client:" = false →
         startsWith t "sip:" = false → ¬ phone_pattern t →
         routes doc = [(client, t)]).
Proof.
  intros Hfrom Hto.
  assert (Hc : ∀ rest, startsWith ("client:" +:+ rest) "client:" = true)
    by (intros; apply startsWith_app).
  destruct to as [t|]; [destruct (String.eqb_spec t "") as [->|Hne]|];
    simpl in Hto.
  1, 3: destruct (voice_no_destination cfg req from Hfrom) as (l & -> & Hl);
    [by rewrite Hto|];
    exists l, [Say alice_en no_destination];
    (split; [done|]); (split; [done|]);
    (split; [cbn; by intros ?%list_elem_of_singleton|]);
    (split; [done|]);
    repeat split; intros; simplify_eq; try done;
    by match goal with H : phone_pattern "" |- _ =>
      apply isPhoneNumber_pattern in H end.
  destruct (startsWith t "client:") eqn:Hclient;
    [| destruct (startsWith t "sip:") eqn:Hsip;
       [| destruct (isPhoneNumber t) eqn:Hphone ] ].
  - destruct (voice_client_prefix cfg req from Hfrom t Hto Hne Hclient)
      as (l & -> & Hl & _).
    eexists _, _. split; [done|]. split; [done|].
    split; [apply not_elem_of_spoken_dial|].
    split; [by intros [|]; simplify_eq|].
    repeat split; intros; simplify_eq; eauto; try congruence.
    cbn. by rewrite replace_prefix.
  - destruct (voice_sip_prefix cfg req from Hfrom t Hto Hne Hclient Hsip)
      as (l & -> & Hl & _).
    eexists _, _. split; [done|]. split; [done|].
    split; [apply not_elem_of_spoken_dial|].
    split; [by intros [|]; simplify_eq|].
    repeat split; intros; simplify_eq; eauto; try congruence.
  - destruct (voice_phone_number cfg req from Hfrom t Hto Hne Hclient Hsip
                Hphone) as (l & -> & Hl & _).
    eexists _, _. split; [done|]. split; [done|].
    split; [apply not_elem_of_spoken_dial|].
    split; [by intros [|]; simplify_eq|].
    repeat split; intros; simplify_eq; eauto; try congruence.
    by apply isPhoneNumber_pattern in Hphone.
  - destruct (voice_bare_identifier cfg req from Hfrom t Hto Hne Hclient Hsip
                Hphone) as (l & -> & Hl & _).
    eexists _, _. split; [done|]. split; [done|].
    split; [apply not_elem_of_spoken_dial|].
    split; [by intros [|]; simplify_eq|].
    repeat split; intros; simplify_eq; eauto; try congruence.
    by apply not_phone_pattern in Hphone.
Qed.

Lemma voiceResponse_classifies_witness :
  let req := webhook (Str "+14155551234") (Str "client:alice") in
  voice_from req = Str "client:alice"
  ∧ raw_to req = of_option (Some "+14155551234")
  ∧ ∃ l doc, voiceResponse unverified req = Sent l doc
             ∧ routes doc = [(phone, "+14155551234")].
Proof.
  intros req. split; [reflexivity|]. split; [reflexivity|].
  destruct (voiceResponse_classifies unverified req "client:alice"
              (Some "+14155551234") eq_refl eq_refl)
    as (l & doc & Hrun & _ & _ & _ & _ & _ & _ & Hphone & _).
  exists l, doc. split; [exact Hrun|].
  apply Hphone; [reflexivity..|].
  apply isPhoneNumber_pattern. reflexivity.
Defined.

(** The error path is there for other inputs: a [To] that is truthy and no
    string makes [to.startsWith] throw inside the [try], and the apology is
    spoken. *)
Lemma voiceResponse_non_string_to (cfg : config) :
  ∃ l, voiceResponse cfg (webhook (Num 5) Undefined)
       = Sent l [Say alice_en error_apology]
       ∧ logged Error l = ["Error generating voice response"].
Proof. eexists. split; reflexivity. Qed.

(** *** Caller identity *)

Lemma callerId_or_verified (cfg : config) (v : string) :
  callerId_or cfg v = default v (verified_number cfg).
Proof.
  unfold callerId_or, verified_number.
  destruct (twilio_callerId cfg) as [c|]; [|done]. by destruct (String.eqb c "").
Qed.

Lemma no_callerId_verified (cfg : config) :
  no_callerId cfg = true ↔ verified_number cfg = None.
Proof.
  unfold no_callerId, verified_number.
  destruct (twilio_callerId cfg) as [c|]; [|done]. simpl.
  destruct (String.eqb_spec c "") as [->|Hc]; simpl; [done|].
  rewrite bool_decide_eq_true. split; [congruence | done].
Qed.

(** A string of the phone-number pattern starts with [+] or a digit, so
    with neither prefix. *)
Lemma phone_pattern_no_prefix (t : string) :
  phone_pattern t →
  t ≠ "" ∧ startsWith t "client:" = false ∧ startsWith t "sip:" = false.
Proof.
  intros (plus & d & ds & -> & Hd & _ & _). unfold startsWith.
  destruct plus; app_norm; (split; [done|]); [by split|].
  split; rewrite prefix_cons;
    (destruct (ascii_dec _ d) as [<-|]; [by vm_compute in Hd | done]).
Qed.

(** C4: when [from] starts with [client:], the resolved caller ID is the
    configured verified number if one is configured and not empty, and
    [from] itself otherwise; for a target of the phone-number pattern the
    dial instruction presents the verified number when there is one, and
    otherwise the resolved caller ID, with a warning logged, and the number
    is dialled all the same. *)
Theorem callerId_resolution (cfg : config) (req : request) (from : string) :
  voice_from req = Str from →
  (startsWith from "client:" = true →
     callerId cfg from = default from (verified_number cfg))
  ∧ (∀ t, raw_to req = Str t → phone_pattern t →
       ∃ l a na, voiceResponse cfg req = Sent l [Dial a [Number na t]]
         ∧ match verified_number cfg with
           | Some c => d_callerId a = Str c ∧ logged Warn l = []
           | None => d_callerId a = Str (callerId cfg from)
                     ∧ logged Warn l = [callerId_warning]
           end).
Proof.
  intros Hfrom. split.
  - intros H. unfold callerId, isClientFrom. rewrite H.
    apply callerId_or_verified.
  - intros t Hto Hp.
    destruct (phone_pattern_no_prefix t Hp) as (Hne & Hc & Hs).
    apply isPhoneNumber_pattern in Hp.
    destruct (voice_phone_number cfg req from Hfrom t Hto Hne Hc Hs Hp)
      as (l & -> & _ & Hw).
    eexists _, _, _. split; [reflexivity|]. cbn [d_callerId].
    rewrite Hw, callerId_or_verified.
    pose proof (no_callerId_verified cfg) as Hn.
    destruct (verified_number cfg) as [c|]; simpl.
    + split; [done|]. destruct (no_callerId cfg); [|done].
      by destruct Hn as [Hn _]; specialize (Hn eq_refl).
    + split; [done|]. destruct (no_callerId cfg); [done|].
      by destruct Hn as [_ Hn]; specialize (Hn eq_refl).
Qed.

Lemma callerId_resolution_witness :
  let req := webhook (Str "+14155551234") (Str "client:alice") in
  voice_from req = Str "client:alice"
  ∧ callerId unverified "client:alice" = "client:alice"
  ∧ ∃ l a na,
      voiceResponse unverified req = Sent l [Dial a [Number na "+14155551234"]]
      ∧ d_callerId a = Str "client:alice"
      ∧ logged Warn l = [callerId_warning].
Proof.
  intros req. split; [reflexivity|].
  destruct (callerId_resolution unverified req "client:alice" eq_refl)
    as [Hid Hdial].
  split; [exact (Hid eq_refl)|].
  destruct (Hdial "+14155551234" eq_refl) as (l & a & na & Hrun & Ha & Hw).
  { apply isPhoneNumber_pattern. reflexivity. }
  exists l, a, na. split; [exact Hrun|]. split; [exact Ha | exact Hw].
Defined.

(** *** The connection instruction *)




(** *** Inbound calls *)

(** A [client:] destination is dialled with the caller's [From] as caller
    ID. *)
Lemma incomingCall_client (req : request) (rest : string) :
  raw_to req = Str ("client:" +:+ rest) →
  ∃ l, incomingCall req =
         Sent l [Dial {| d_callerId := incoming_from req;
                         answerOnBridge := Some true;
                         timeout := None |}
                      [Client rest]]
       ∧ logged Error l = [].
Proof.
  intros Hto. unfold incomingCall, incoming_try. rewrite Hto.
  assert (truthy (Str ("client:" +:+ rest)) = true) as -> by done.
  rewrite startsWith_app, replace_prefix.
  eexists. split; reflexivity.
Qed.

(** Any other destination, or none: the message is spoken, after the [Dial]
    that was opened before the destination was looked at. *)
Lemma incomingCall_no_client (req : request) :
  (truthy (raw_to req) = false
   ∨ ∃ t, raw_to req = Str t ∧ startsWith t "client:" = false) →
  ∃ l, incomingCall req =
         Sent l [Dial {| d_callerId := incoming_from req;
                         answerOnBridge := Some true;
                         timeout := None |} [];
                 Say alice_en no_one_available]
       ∧ logged Error l = [].
Proof.
  unfold incomingCall, incoming_try. intros [Hto | (t & Hto & Hc)].
  - rewrite Hto. eexists. split; reflexivity.
  - rewrite Hto, Hc. destruct (truthy (Str t)); eexists; split; reflexivity.
Qed.

(** C8 at a phone-number destination: the document sent holds the spoken
    message, and before it a [Dial] with the caller ID and no target. *)
Theorem incomingCall_fallback_keeps_dial :
  ∃ l, incomingCall
         (inbound (Str "+14155551234") (Str "+15005550006") (Str "CA42"))
       = Sent l [Dial {| d_callerId := Str "+15005550006";
                         answerOnBridge := Some true;
                         timeout := None |} [];
                 Say alice_en no_one_available]
       ∧ dials [Dial {| d_callerId := Str "+15005550006";
                        answerOnBridge := Some true;
                        timeout := None |} [];
                Say alice_en no_one_available] ≠ [].
Proof. eexists. split; [reflexivity | discriminate]. Qed.

End TwilioFacts.

(** ** The reservation controller: the expiry sweep *)

Module SweepFacts.

Import Js Reservation.

Lemma expired_where_iff (today now : string) (r : CallReservation) :
  expired_where today now r = true ↔ is_expired today now (cols r).
Proof.
  unfold expired_where, is_expired, before.
  rewrite andb_true_iff, orb_true_iff, andb_true_iff, !String.eqb_eq.
  done.
Qed.

(** The update the sweep issues for a record amounts to [completed]. *)
Lemma apply_completed_data (r : CallReservation) (ts : Z) :
  apply_data (completed_data r) ts (cols r) = completed ts (cols r).
Proof.
  unfold apply_data, completed, completed_data, callDuration_or_0. simpl.
  do 2 f_equal. destruct (callDuration (cols r)) as [n|]; simpl; [|done].
  by destruct (Z.eqb_spec n 0).
Qed.

(** What the query returns: the records of the table that match. *)
Lemma elem_of_findMany (w : CallReservation → bool) (s : db)
    (r : CallReservation) :
  r ∈ findMany w s ↔ rows s !! id r = Some (cols r) ∧ w r = true.
Proof.
  unfold findMany. rewrite list_elem_of_filter, list_elem_of_fmap. split.
  - intros [Hw ([i c] & -> & Hic)]. apply elem_of_map_to_list in Hic.
    split; [done|]. by apply Is_true_true.
  - intros [Hr Hw]. split; [by apply Is_true_true|].
    exists (id r, cols r). split; [by destruct r|].
    by apply elem_of_map_to_list.
Qed.

Lemma NoDup_findMany (w : CallReservation → bool) (s : db) :
  NoDup (id <$> findMany w s).
Proof.
  unfold findMany.
  apply (sublist_NoDup _ (id <$> (uncurry mkReservation <$> map_to_list (rows s))));
    [| apply fmap_sublist, sublist_filter].
  assert (∀ l : list (Z * columns), id <$> (uncurry mkReservation <$> l) = l.*1)
    as ->.
  { induction l as [|[i c] l IH]; [done|]. simpl. by f_equal. }
  apply NoDup_fst_map_to_list.
Qed.

Lemma update_in_place (i : Z) (d : update_data) (ts : Z) (s : db)
    (c : columns) :
  rows s !! i = Some c →
  update i d ts s =
    (Db (<[i := apply_data d ts c]> (rows s)) (next_id s),
     inr (mkReservation i (apply_data d ts c))).
Proof. intros Hc. unfold update. by rewrite Hc. Qed.

Lemma promise_all_inr {E A B} (f : A → B) (l : list A) :
  promise_all ((λ a, inr (f a) : E + B) <$> l) = inr (f <$> l).
Proof.
  induction l as [|a l IH]; [done|].
  rewrite !fmap_cons. cbn [promise_all]. by rewrite IH.
Qed.

(** The updates of a sweep, over records that were read from the table and
    have distinct ids: each found row is completed, the others are left
    alone, and no update is refused. *)
Lemma update_each_spec (found : list CallReservation) (ts : Z) (s : db) :
  NoDup (id <$> found) →
  (∀ r, r ∈ found → rows s !! id r = Some (cols r)) →
  ∃ m, update_each found ts s
         = (Db m (next_id s), (λ r, inr (swept ts r)) <$> found)
       ∧ (∀ r, r ∈ found → m !! id r = Some (completed ts (cols r)))
       ∧ (∀ i, i ∉ id <$> found → m !! i = rows s !! i).
Proof.
  revert s. induction found as [|r rest IH]; intros s Hnd Hin.
  - exists (rows s). split; [by destruct s|]. split; [|done].
    by intros r ?%elem_of_nil.
  - rewrite fmap_cons in Hnd. apply NoDup_cons in Hnd as [Hr Hnd].
    assert (Hrow : rows s !! id r = Some (cols r)) by (apply Hin; left).
    cbn [update_each].
    rewrite (update_in_place (id r) (completed_data r) ts s (cols r) Hrow),
      apply_completed_data.
    destruct (IH (Db (<[id r := completed ts (cols r)]> (rows s)) (next_id s))
                Hnd) as (m & -> & Hfound & Hother).
    { intros r' Hr'. simpl. rewrite lookup_insert_ne; [apply Hin; by right|].
      intros Heq. apply Hr. rewrite Heq. by apply list_elem_of_fmap_2. }
    simpl in Hother. exists m. split; [done|]. split.
    + intros r' [->|Hr']%elem_of_cons; [|by apply Hfound].
      by rewrite Hother, lookup_insert_eq.
    + intros i Hi. rewrite fmap_cons, not_elem_of_cons in Hi.
      destruct Hi as [Hne Hi]. by rewrite Hother, lookup_insert_ne.
Qed.

(** The outcome of a sweep in terms of the records its query finds. *)
Lemma sweep_outcome (now : clock) (ts : Z) (s : db) :
  let found := findMany (expired_where (today now) (currentTime now)) s in
  ∃ m rep,
    updateExpiredReservations now ts s = (Db m (next_id s), rep)
    ∧ (∀ r, r ∈ found → m !! id r = Some (completed ts (cols r)))
    ∧ (∀ i, i ∉ id <$> found → m !! i = rows s !! i)
    ∧ code rep = 200 ∧ success rep = true ∧ error rep = None
    ∧ data rep = Some (Many (swept ts <$> found))
    ∧ (found = [] → m = rows s ∧ rep = nothing_expired).
Proof.
  intros found. unfold updateExpiredReservations. fold found.
  destruct found as [|r0 rest] eqn:Hfound.
  - exists (rows s), nothing_expired. split; [by destruct s|].
    split; [by intros r ?%elem_of_nil|]. done.
  - rewrite <- Hfound. 
    destruct (update_each_spec found ts s) as (m & Hrun & Hin & Hout).
    { apply NoDup_findMany. }
    { intros r Hr. by apply elem_of_findMany in Hr as [? _]. }
    rewrite Hrun, promise_all_inr.
    replace (length found =? 0)%nat with false by by rewrite Hfound.
    eexists m, _. split; [reflexivity|]. rewrite Hfound in *.
    repeat split; try done.
Qed.

Lemma findMany_none (w : CallReservation → bool) (s : db) :
  (∀ i c, rows s !! i = Some c → w (mkReservation i c) = false) →
  findMany w s = [].
Proof.
  intros H. destruct (findMany w s) as [|r l] eqn:Hf; [done|].
  assert (Hr : r ∈ findMany w s) by (rewrite Hf; left).
  apply elem_of_findMany in Hr as [Hrow Hw]. apply H in Hrow.
  destruct r. simpl in *. congruence.
Qed.

Lemma sweep_of_none (now : clock) (ts : Z) (s : db) :
  findMany (expired_where (today now) (currentTime now)) s = [] →
  updateExpiredReservations now ts s = (s, nothing_expired).
Proof. intros H. unfold updateExpiredReservations. by rewrite H. Qed.

Lemma not_expired_where (today now : string) (i : Z) (c : columns) :
  ¬ is_expired today now c → expired_where today now (mkReservation i c) = false.
Proof.
  intros H. destruct (expired_where _ _ _) eqn:He; [|done].
  by apply expired_where_iff in He.
Qed.

(** C2: for every table and clock reading, the sweep completes exactly the
    reservations that are ongoing and whose date is before today, or is
    today with an end time before now: each of them gets the status
    completed with its call duration kept, or 0 when it was unset; every
    other reservation is left as it was and none is added or removed; the
    reply is a success; and when nothing matches, the table is untouched
    and the reply is the successful empty result. *)
Theorem sweep_completes_expired (now : clock) (ts : Z) (s : db) :
  let out := updateExpiredReservations now ts s in
  let expired := is_expired (today now) (currentTime now) in
  (∀ i c, rows s !! i = Some c → expired c →
     rows out.1 !! i = Some (completed ts c))
  ∧ (∀ i c, rows s !! i = Some c → ¬ expired c → rows out.1 !! i = Some c)
  ∧ (∀ i, rows s !! i = None → rows out.1 !! i = None)
  ∧ code out.2 = 200 ∧ success out.2 = true ∧ error out.2 = None
  ∧ ((∀ i c, rows s !! i = Some c → ¬ expired c) →
       out = (s, nothing_expired)).
Proof.
  intros out expired. subst out expired.
  destruct (sweep_outcome now ts s)
    as (m & rep & Hrun & Hin & Hout & Hcode & Hok & Herr & _ & _).
  split; [|split; [|split; [|split; [|split; [|split]]]]].
  - intros i c Hrow Hexp. rewrite Hrun. simpl.
    apply (Hin (mkReservation i c)), elem_of_findMany. split; [done|].
    by apply expired_where_iff.
  - intros i c Hrow Hexp. rewrite Hrun. simpl. rewrite Hout; [done|].
    intros (r & -> & Hr)%list_elem_of_fmap.
    apply elem_of_findMany in Hr as [Hr Hw]. apply expired_where_iff in Hw.
    apply Hexp. congruence.
  - intros i Hrow. rewrite Hrun. simpl. rewrite Hout; [done|].
    intros (r & -> & Hr)%list_elem_of_fmap.
    apply elem_of_findMany in Hr as [Hr _]. congruence.
  - by rewrite Hrun.
  - by rewrite Hrun.
  - by rewrite Hrun.
  - intros Hnone. apply sweep_of_none, findMany_none.
    intros i c Hrow. by apply not_expired_where, (Hnone i).
Qed.

(** C3: for every table and clock reading, a second sweep right after a
    first finds no matching reservation, changes nothing, and replies with
    the successful empty result, a list of 0 records. *)
Theorem sweep_idempotent (now : clock) (ts ts' : Z) (s : db) :
  let first := updateExpiredReservations now ts s in
  let second := updateExpiredReservations now ts' first.1 in
  findMany (expired_where (today now) (currentTime now)) first.1 = []
  ∧ second = (first.1, nothing_expired)
  ∧ data second.2 = Some (Many []).
Proof.
  intros first second.
  assert (Hnone : findMany (expired_where (today now) (currentTime now))
                    first.1 = []).
  { subst first. apply findMany_none. intros i c Hrow.
    destruct (sweep_outcome now ts s) as (m & rep & Hrun & Hin & Hout & _).
    rewrite Hrun in Hrow. simpl in Hrow.
    destruct (decide (i ∈ id <$> findMany
                (expired_where (today now) (currentTime now)) s))
      as [Hi|Hi].
    - apply list_elem_of_fmap in Hi as (r & -> & Hr).
      rewrite (Hin r Hr) in Hrow. by simplify_eq.
    - rewrite (Hout i Hi) in Hrow.
      destruct (expired_where (today now) (currentTime now) (mkReservation i c))
        eqn:Hw; [|done].
      destruct Hi. apply (list_elem_of_fmap_2' id _ (mkReservation i c)); [|done].
      by apply elem_of_findMany. }
  split; [exact Hnone|]. subst second.
  by rewrite (sweep_of_none now ts' first.1 Hnone).
Qed.

Lemma sweep_completes_expired_witness :
  let out := updateExpiredReservations sample_clock 5000 sample_db in
  rows out.1 !! 1 = Some (completed 5000 ann) ∧ rows out.1 !! 12 = Some cyd.
Proof.
  destruct (sweep_completes_expired sample_clock 5000 sample_db)
    as (Hexp & Hkeep & _).
  split.
  - apply Hexp; [reflexivity|]. split; [reflexivity|]. left. reflexivity.
  - apply Hkeep; [reflexivity|].
    intros [_ [H|[_ H]]]; vm_compute in H; discriminate H.
Defined.

End SweepFacts.

(** ** The reservation controller: ids *)

Module IdFacts.

Import Js JsFacts Reservation.

(** *** What [parseInt] reads in radix 10 *)

Lemma digit_value_digit (c : ascii) :
  is_digit c = true →
  digit_value c = Some (Z.of_nat (nat_of_ascii c) - 48)
  ∧ Z.of_nat (nat_of_ascii c) - 48 < 10.
Proof.
  unfold is_digit, digit_value. cbv zeta.
  rewrite andb_true_iff, !Nat.leb_le. intros [Hlo Hhi].
  replace (48 <=? Z.of_nat (nat_of_ascii c)) with true
    by (symmetry; apply Z.leb_le; lia).
  replace (Z.of_nat (nat_of_ascii c) <=? 57) with true
    by (symmetry; apply Z.leb_le; lia).
  split; [done | lia].
Qed.

Lemma digit_value_other (c : ascii) :
  is_digit c = false →
  digit_value c = None ∨ ∃ d, digit_value c = Some d ∧ 10 ≤ d.
Proof.
  unfold is_digit, digit_value. cbv zeta. intros H.
  destruct (Z.leb_spec 48 (Z.of_nat (nat_of_ascii c)));
    destruct (Z.leb_spec (Z.of_nat (nat_of_ascii c)) 57); simpl.
  { apply andb_false_iff in H as [H|H]; apply Nat.leb_gt in H; lia. }
  all: repeat match goal with
       | |- context [?a <=? ?b] => destruct (Z.leb_spec a b); simpl
       end; eauto; right; eexists; (split; [reflexivity | lia]).
Qed.

Lemma digit_not_white (c : ascii) : is_digit c = true → is_white c = false.
Proof.
  unfold is_digit, is_white. cbv zeta.
  rewrite andb_true_iff, !Nat.leb_le. intros [Hlo Hhi].
  rewrite !orb_false_iff, andb_false_iff, !Nat.eqb_neq, !Nat.leb_gt. lia.
Qed.

Lemma digit_not_sign (c : ascii) :
  is_digit c = true → Ascii.eqb c "-" = false ∧ Ascii.eqb c "+" = false.
Proof.
  intros H. split; apply Ascii.eqb_neq; by intros ->.
Qed.

Lemma read_digits_stop (acc : Z) (seen : bool) (g : string) :
  stops g → read_digits 10 acc seen g = if seen then Some acc else None.
Proof.
  destruct g as [|c g]; [done|]. simpl. intros H.
  destruct (digit_value_other c H) as [->|(d & -> & Hd)]; [done|].
  by replace (d <? 10) with false by (symmetry; apply Z.ltb_ge; lia).
Qed.

Lemma read_digits_run (ds g : string) (acc : Z) (seen : bool) :
  all is_digit ds = true → stops g →
  read_digits 10 acc seen (ds +:+ g)
  = if seen || negb (String.eqb ds "") then Some (decimal_from acc ds)
    else None.
Proof.
  revert acc seen. induction ds as [|c ds IH]; intros acc seen Hds Hg.
  - app_norm. rewrite read_digits_stop by done. simpl. by rewrite orb_false_r.
  - app_norm. simpl in Hds. apply andb_true_iff in Hds as [Hc Hds].
    cbn [read_digits decimal_from].
    destruct (digit_value_digit c Hc) as [-> Hlt].
    replace (_ <? 10) with true by (symmetry; apply Z.ltb_lt; lia).
    rewrite IH by done. simpl. by rewrite orb_true_r.
Qed.



Lemma parseInt10_unfold (id : string) :
  parseInt id (Some 10)
  = (λ n, (strip_sign (trim_start id)).1 * n)
      <$> read_digits 10 0 false (strip_sign (trim_start id)).2.
Proof. unfold parseInt. by destruct (strip_sign (trim_start id)). Qed.

Lemma digits_head (ds : string) :
  digits ds → ∃ c ds', ds = String c ds' ∧ is_digit c = true.
Proof.
  intros [Hne Hall]. destruct ds as [|c ds']; [done|].
  simpl in Hall. apply andb_true_iff in Hall as [Hc _]. eauto.
Qed.

Lemma string_eqb_digits (ds : string) : digits ds → String.eqb ds "" = false.
Proof. intros [Hne _]. by apply String.eqb_neq. Qed.

(** Digits followed by anything that is not a digit read as their value. *)
Lemma parseInt10_digits (ds g : string) :
  digits ds → stops g → parseInt (ds +:+ g) (Some 10) = Some (decimal ds).
Proof.
  intros Hds Hg. rewrite parseInt10_unfold.
  destruct (digits_head ds Hds) as (c & ds' & -> & Hc). app_norm.
  cbn [trim_start]. rewrite (digit_not_white c Hc). cbn [strip_sign].
  destruct (digit_not_sign c Hc) as [-> ->]. cbn [fst snd].
  rewrite <- app_cons, read_digits_run; [|apply Hds|done].
  rewrite (string_eqb_digits _ Hds).
  change (Some (1 * decimal (String c ds')) = Some (decimal (String c ds'))).
  by rewrite Z.mul_1_l.
Qed.

Lemma parseInt10_signed (sign : ascii) (ds g : string) :
  digits ds → stops g →
  parseInt (String sign (ds +:+ g)) (Some 10)
  = if Ascii.eqb sign "-" then Some (- decimal ds)
    else if Ascii.eqb sign "+" then Some (decimal ds)
    else parseInt (String sign (ds +:+ g)) (Some 10).
Proof.
  intros Hds Hg.
  destruct (Ascii.eqb_spec sign "-") as [->|Hm];
    [|destruct (Ascii.eqb_spec sign "+") as [->|Hp]; [|done]].
  all: rewrite parseInt10_unfold;
    change (trim_start (String ?c ?s)) with (String c s);
    change (strip_sign (String "-" ?s)) with (-1, s);
    change (strip_sign (String "+" ?s)) with (1, s);
    cbn [fst snd]; rewrite read_digits_run by (done || apply Hds);
    rewrite (string_eqb_digits _ Hds).
  - change (Some (-1 * decimal ds) = Some (- decimal ds)). f_equal; lia.
  - change (Some (1 * decimal ds) = Some (decimal ds)). f_equal; lia.
Qed.






(** *** [getReservationById] by the reading of its id *)

Lemma getReservationById_parsed (id : string) (n : Z) (s : db) :
  id ≠ "" → parseInt id (Some 10) = Some n →
  getReservationById id s
  = match rows s !! n with
    | Some c => found (mkReservation n c)
    | None => not_found
    end.
Proof.
  intros Hne Hp. unfold getReservationById, findUnique.
  apply String.eqb_neq in Hne. rewrite Hne, Hp.
  by destruct (rows s !! n).
Qed.







End IdFacts.

(** ** The reservation controller: create and update *)

Module CrudFacts.

Import Js Reservation.

(** C5 on the code: an update whose id names no reservation leaves the
    table as it is and is answered through [handleError], with status 500
    and not 404. *)
Theorem updateReservation_missing (id : string) (body : update_body)
    (ts : Z) (s : db) :
  (∀ i, parseInt id None = Some i → rows s !! i = None) →
  ∃ e, updateReservation id body ts s
       = (s, handleError e "Failed to update reservation")
       ∧ code (updateReservation id body ts s).2 = 500.
Proof.
  intros Hmissing. unfold updateReservation.
  destruct (parseInt id None) as [i|]; [|by exists ValidationFailed].
  destruct body as [d|]; [|by exists ValidationFailed].
  unfold update. rewrite (Hmissing i eq_refl). by exists RecordNotFound.
Qed.

Lemma updateReservation_missing_witness :
  let body := Fits (UpdateData None None None None (Some "completed")
                      None None) in
  rows sample_db !! 999 = None
  ∧ updateReservation "999" body 5000 sample_db
    = (sample_db, handleError RecordNotFound "Failed to update reservation")
  ∧ code (updateReservation "999" body 5000 sample_db).2 = 500.
Proof.
  intros body. split; [reflexivity|].
  destruct (updateReservation_missing "999" body 5000 sample_db)
    as (e & Hrun & Hcode).
  { intros i [= <-]. reflexivity. }
  split; [reflexivity | exact Hcode].
Defined.

Lemma field_agree (body body' : gmap string value) (k : string) :
  body !! k = body' !! k → field body k = field body' k.
Proof. unfold field. by intros ->. Qed.

(** What a successful [create] stores and returns. *)
Lemma create_inr (d : create_data) (ts : Z) (s s' : db)
    (r : CallReservation) :
  create d ts s = (s', inr r) →
  status (cols r) = "scheduled" ∧ callDuration (cols r) = None
  ∧ c_username d = Str (username (cols r))
  ∧ c_reservationDate d = Str (reservationDate (cols r))
  ∧ c_startTime d = Str (startTime (cols r))
  ∧ c_endTime d = Str (endTime (cols r))
  ∧ as_string_opt (c_phoneNumber d) = Some (phoneNumber (cols r))
  ∧ rows s !! id r = None
  ∧ rows s' = <[id r := cols r]> (rows s).
Proof.
  unfold create. destruct d as [u rd st et ph]. simpl.
  destruct u, rd, st, et; simpl; try done;
    destruct (as_string_opt ph) eqn:Hph; simpl; try done;
    case_bool_decide as Htaken; intros [= <- <-]; simpl;
    repeat split; try done;
    by apply eq_None_not_Some.
Qed.

(** C9: [createReservation] reads the five keys [username],
    [reservationDate], [startTime], [endTime] and [phoneNumber] of the body
    and nothing else: two bodies that agree on them get the same outcome,
    whatever else they hold; and every reservation it returns is stored as
    returned, holds the five values of the body, and has the status
    scheduled and no call duration. *)
Theorem createReservation_reads_five_fields (body : gmap string value)
    (ts : Z) (s : db) :
  (∀ body', (∀ k, k ∈ create_keys → body !! k = body' !! k) →
     createReservation body' ts s = createReservation body ts s)
  ∧ (∀ r, data (createReservation body ts s).2 = Some (One r) →
       status (cols r) = "scheduled" ∧ callDuration (cols r) = None
       ∧ field body "username" = Str (username (cols r))
       ∧ field body "reservationDate" = Str (reservationDate (cols r))
       ∧ field body "startTime" = Str (startTime (cols r))
       ∧ field body "endTime" = Str (endTime (cols r))
       ∧ as_string_opt (field body "phoneNumber")
           = Some (phoneNumber (cols r))
       ∧ rows (createReservation body ts s).1
           = <[id r := cols r]> (rows s)).
Proof.
  split.
  - intros body' Hagree. unfold createReservation.
    rewrite !(field_agree body body') by (apply Hagree; set_solver).
    done.
  - intros r. unfold createReservation.
    destruct (_ || _); [done|].
    destruct (create _ ts s) as [s' [e|r']] eqn:Hc; [done|].
    simpl. intros [= ->].
    destruct (create_inr _ _ _ _ _ Hc) as (? & ? & ? & ? & ? & ? & ? & ? & ?).
    done.
Qed.

Lemma createReservation_reads_five_fields_witness :
  createReservation stuffed_body 5000 sample_db
  = createReservation plain_body 5000 sample_db
  ∧ ∃ r, data (createReservation stuffed_body 5000 sample_db).2
         = Some (One r)
       ∧ status (cols r) = "scheduled" ∧ callDuration (cols r) = None.
Proof.
  destruct (createReservation_reads_five_fields plain_body 5000 sample_db)
    as [Hsame Hnew].
  assert (Heq : createReservation stuffed_body 5000 sample_db
                = createReservation plain_body 5000 sample_db).
  { apply Hsame. intros k Hk. unfold stuffed_body.
    rewrite !lookup_insert_ne; [done|..];
      intros <-; repeat (apply elem_of_cons in Hk as [Hk|Hk]; [done|]);
      by apply elem_of_nil in Hk. }
  split; [exact Heq|]. rewrite Heq.
  eexists. split; [reflexivity|].
  split; by eapply Hnew.
Defined.

(** *** Ids stay positive

    The hypothesis of C10 on the table holds of the empty table and is kept
    by every handler that writes. *)

Lemma serial_empty : serial empty_db.
Proof.
  split; [|done]. intros i [c Hi]. simpl in Hi. by rewrite lookup_empty in Hi.
Qed.

Lemma serial_create (d : create_data) (ts : Z) (s : db) :
  serial s → serial (create d ts s).1.
Proof.
  intros [Hpos Hnext]. unfold create.
  repeat case_match; simpl; try done; split; simpl; try lia; try done.
  intros i [c Hi]. simpl in Hi.
  apply lookup_insert_Some in Hi as [[<- _]|[_ Hi]]; [done | by apply Hpos].
Qed.

Lemma serial_update (i : Z) (d : update_data) (ts : Z) (s : db) :
  serial s → serial (update i d ts s).1.
Proof.
  intros [Hpos Hnext]. unfold update.
  destruct (rows s !! i) as [c|] eqn:Hrow; [|done]. split; [|done].
  intros j [c' Hj]. simpl in Hj.
  apply lookup_insert_Some in Hj as [[<- _]|[_ Hj]]; apply Hpos; eauto.
Qed.

Lemma serial_createReservation (body : gmap string value) (ts : Z) (s : db) :
  serial s → serial (createReservation body ts s).1.
Proof.
  intros Hs. unfold createReservation. destruct (_ || _); [done|].
  pose proof (serial_create
    (CreateData (field body "username") (field body "reservationDate")
       (field body "startTime") (field body "endTime")
       (field body "phoneNumber")) ts s Hs) as H.
  by destruct (create _ ts s) as [s' [e|r]].
Qed.

Lemma serial_updateReservation (id : string) (body : update_body) (ts : Z)
    (s : db) :
  serial s → serial (updateReservation id body ts s).1.
Proof.
  intros Hs. unfold updateReservation.
  destruct (parseInt id None) as [i|]; [|done].
  destruct body as [d|]; [|done].
  pose proof (serial_update i d ts s Hs) as H.
  by destruct (update i d ts s) as [s' [e|r]].
Qed.

Lemma serial_updateExpiredReservations (now : clock) (ts : Z) (s : db) :
  serial s → serial (updateExpiredReservations now ts s).1.
Proof.
  intros [Hpos Hnext].
  destruct (SweepFacts.sweep_outcome now ts s)
    as (m & rep & -> & Hin & Hout & _).
  split; [|done]. intros i [c Hi]. simpl in Hi. apply Hpos.
  destruct (decide (i ∈ id <$> findMany
              (expired_where (today now) (currentTime now)) s)) as [Hi'|Hi'].
  - apply list_elem_of_fmap in Hi' as (r & -> & Hr).
    apply SweepFacts.elem_of_findMany in Hr as [Hr _]. eauto.
  - rewrite (Hout i Hi') in Hi. eauto.
Qed.

End CrudFacts.

(** ** The voice webhook controller: edges of the handlers *)

Module TwilioEdgeFacts.

Import Js JsFacts Twilio TwilioFacts.



(** X2: [from.startsWith] is called before the [try]: when the [From] of
    the request is truthy and no string, [voiceResponse] throws out of the
    handler, whatever [To] is; no document is sent and nothing is logged. *)
Theorem voiceResponse_throws (cfg : config) (req : request) :
  (∀ f, voice_from req ≠ Str f) → voiceResponse cfg req = Uncaught [].
Proof.
  intros Hstr. unfold voiceResponse.
  destruct (voice_from req) as [| |b|n|f|] eqn:Hfrom; try done.
  by destruct (Hstr f).
Qed.

Lemma voiceResponse_throws_witness :
  let req := webhook (Str "client:bob") (Num 7) in
  (∀ f, voice_from req ≠ Str f)
  ∧ voiceResponse verified req = Uncaught [].
Proof.
  intros req.
  assert (Hstr : ∀ f, voice_from req ≠ Str f) by (intros f; discriminate).
  split; [exact Hstr|]. exact (voiceResponse_throws verified req Hstr).
Defined.

(** The [From] of a request is a string unless a truthy value of another
    kind was sent: the default covers every falsy value. *)
Lemma voice_from_cases (req : request) :
  (∃ f, voice_from req = Str f ∧ f ≠ "")
  ∨ (truthy (voice_from req) = true ∧ ∀ f, voice_from req ≠ Str f).
Proof.
  unfold voice_from, or.
  destruct (truthy (body_From req)) eqn:Hb; simpl.
  - rewrite Hb. destruct (body_From req) as [| |b|n|f|]; simpl in *;
      try (right; split; [done | by intros]).
    left. exists f. split; [done|]. by apply truthy_str.
  - destruct (truthy (query_From req)) eqn:Hq; simpl.
    + rewrite Hq. destruct (query_From req) as [| |b|n|f|]; simpl in *;
        try (right; split; [done | by intros]).
      left. exists f. split; [done|]. by apply truthy_str.
    + left. by exists "client:anonymous".
Qed.

(** X3: for a destination outside the phone-number pattern the dial
    instruction presents the resolved caller ID as it is, with no warning;
    so a [From] that does not start with [client:] is presented itself,
    also when a verified number is configured. *)
Theorem voiceResponse_callerId_as_is (cfg : config) (req : request)
    (from t : string) :
  voice_from req = Str from → raw_to req = Str t → t ≠ "" →
  ¬ phone_pattern t →
  ∃ l a n,
    voiceResponse cfg req = Sent l [Dial a [n]]
    ∧ d_callerId a = Str (callerId cfg from)
    ∧ (startsWith from "client:" = false → d_callerId a = Str from)
    ∧ logged Warn l = [].
Proof.
  intros Hfrom Hto Hne Hp. apply not_phone_pattern in Hp.
  assert (Hraw : startsWith from "client:" = false → callerId cfg from = from).
  { intros H. unfold callerId, isClientFrom. by rewrite H. }
  destruct (startsWith t "client:") eqn:Hclient;
    [| destruct (startsWith t "sip:") eqn:Hsip ].
  - destruct (voice_client_prefix cfg req from Hfrom t Hto Hne Hclient)
      as (l & -> & _ & Hw).
    eexists _, _, _. split; [done|]. cbn [d_callerId].
    repeat split; [|done]. by intros ->%Hraw.
  - destruct (voice_sip_prefix cfg req from Hfrom t Hto Hne Hclient Hsip)
      as (l & -> & _ & Hw).
    eexists _, _, _. split; [done|]. cbn [d_callerId].
    repeat split; [|done]. by intros ->%Hraw.
  - destruct (voice_bare_identifier cfg req from Hfrom t Hto Hne Hclient Hsip
                Hp) as (l & -> & _ & Hw).
    eexists _, _, _. split; [done|]. cbn [d_callerId].
    repeat split; [|done]. by intros ->%Hraw.
Qed.

Lemma voiceResponse_callerId_as_is_witness :
  let req := webhook (Str "client:bob") (Str "+15005550001") in
  voice_from req = Str "+15005550001"
  ∧ raw_to req = Str "client:bob"
  ∧ "client:bob" ≠ ""
  ∧ ¬ phone_pattern "client:bob"
  ∧ ∃ l a n,
      voiceResponse verified req = Sent l [Dial a [n]]
      ∧ d_callerId a = Str "+15005550001".
Proof.
  intros req.
  assert (Hne : "client:bob" ≠ "") by discriminate.
  assert (Hp : ¬ phone_pattern "client:bob").
  { apply not_phone_pattern. reflexivity. }
  split; [reflexivity|]. split; [reflexivity|]. split; [exact Hne|].
  split; [exact Hp|].
  destruct (voiceResponse_callerId_as_is verified req "+15005550001"
              "client:bob" eq_refl eq_refl Hne Hp)
    as (l & a & n & Hrun & _ & Hraw & _).
  exists l, a, n. split; [exact Hrun|]. exact (Hraw eq_refl).
Defined.

Lemma in_range_digit (d : ascii) :
  in_range "1" "9" d = true → is_digit d = true ∧ d ≠ "0"%char.
Proof.
  unfold in_range, is_digit. cbv zeta.
  change (nat_of_ascii "1") with 49%nat. change (nat_of_ascii "9") with 57%nat.
  rewrite !andb_true_iff, !Nat.leb_le. intros [Hlo Hhi].
  split; [lia|]. intros ->. vm_compute in Hlo. lia.
Qed.

Lemma digit_in_range (d : ascii) :
  is_digit d = true → d ≠ "0"%char → in_range "1" "9" d = true.
Proof.
  unfold in_range, is_digit. cbv zeta.
  change (nat_of_ascii "1") with 49%nat. change (nat_of_ascii "9") with 57%nat.
  rewrite !andb_true_iff, !Nat.leb_le. intros [Hlo Hhi] Hne.
  split; [|done].
  destruct (decide (nat_of_ascii d = 48%nat)) as [H48|]; [|lia].
  destruct Hne. rewrite <- (ascii_nat_embedding d), H48. reflexivity.
Qed.

Lemma startsWith_zero (c : ascii) (s : string) :
  startsWith (String c s) "0" = true ↔ c = "0"%char.
Proof.
  unfold startsWith. rewrite prefix_cons.
  destruct (ascii_dec "0" c) as [<-|Hne]; split; try done.
  intros _. by destruct s.
Qed.

(** X4: the pattern of [voiceResponse] for phone numbers accepts exactly an
    optional [+] followed by 2 to 15 decimal digits of which the first is
    not 0; what it accepts has 2 to 16 characters. *)
Theorem isPhoneNumber_digits (t : string) :
  isPhoneNumber t = true
  ↔ ∃ ds, (t = ds ∨ t = "+" +:+ ds)
      ∧ all is_digit ds = true
      ∧ startsWith ds "0" = false
      ∧ (2 ≤ String.length ds ≤ 15)%nat
      ∧ (2 ≤ String.length t ≤ 16)%nat.
Proof.
  rewrite isPhoneNumber_pattern. split.
  - intros (plus & d & ds & -> & Hd & Hds & Hlen).
    apply in_range_digit in Hd as [Hd H0].
    exists (String d ds). split; [by destruct plus; [right|left]|].
    split; [simpl; by rewrite Hd|].
    split. { destruct (startsWith (String d ds) "0") eqn:Hz; [|done].
             by apply startsWith_zero in Hz. }
    split; [simpl; lia|]. destruct plus; app_norm; simpl; lia.
  - intros (ds & Ht & Hds & Hz & Hlen & _).
    destruct ds as [|d ds]; [simpl in Hlen; lia|].
    simpl in Hds. apply andb_true_iff in Hds as [Hd Hds].
    exists (if decide (t = String d ds) then false else true), d, ds.
    split. { case_decide; [done|]. by destruct Ht. }
    split. { apply digit_in_range; [done|]. intros ->.
             by rewrite (proj2 (startsWith_zero "0" ds)) in Hz. }
    split; [done|]. simpl in Hlen. lia.
Qed.

Lemma digits_no_prefix (t : string) :
  all is_digit t = true →
  startsWith t "client:" = false ∧ startsWith t "sip:" = false.
Proof.
  destruct t as [|d t]; [done|]. cbn [all]. intros [Hd _]%andb_true_iff.
  unfold startsWith.
  split; rewrite prefix_cons;
    (destruct (ascii_dec _ d) as [<-|]; [by vm_compute in Hd | done]).
Qed.

(** X5: digits that fall outside the phone-number pattern are not refused:
    a [To] of decimal digits that starts with 0, has more than 15 digits or
    is a single digit is dialled as a client identity of that name. *)
Theorem voiceResponse_digits_as_client (cfg : config) (req : request)
    (from t : string) :
  voice_from req = Str from → raw_to req = Str t →
  t ≠ "" → all is_digit t = true →
  (startsWith t "0" = true ∨ 15 < String.length t ∨ String.length t < 2)%nat →
  ∃ l a, voiceResponse cfg req = Sent l [Dial a [Client t]]
         ∧ routes [Dial a [Client t]] = [(client, t)]
         ∧ logged Error l = [].
Proof.
  intros Hfrom Hto Hne Hds Hodd.
  destruct (digits_no_prefix t Hds) as [Hc Hs].
  assert (Hp : isPhoneNumber t = false).
  { apply not_phone_pattern. intros (plus & d & ds & -> & Hd & _ & Hlen).
    destruct plus; app_norm; [done|].
    destruct Hodd as [Hz|[Hlong|Hshort]]; simpl in *; try lia.
    apply startsWith_zero in Hz as ->. by vm_compute in Hd. }
  destruct (voice_bare_identifier cfg req from Hfrom t Hto Hne Hc Hs Hp)
    as (l & -> & Hl & _).
  by eexists _, _.
Qed.

Lemma voiceResponse_digits_as_client_witness :
  let req := webhook (Str "0044201234567") (Str "client:alice") in
  voice_from req = Str "client:alice"
  ∧ raw_to req = Str "0044201234567"
  ∧ "0044201234567" ≠ ""
  ∧ all is_digit "0044201234567" = true
  ∧ startsWith "0044201234567" "0" = true
  ∧ ∃ l a, voiceResponse verified req = Sent l [Dial a [Client "0044201234567"]].
Proof.
  intros req.
  assert (Hne : "0044201234567" ≠ "") by discriminate.
  split; [reflexivity|]. split; [reflexivity|]. split; [exact Hne|].
  split; [reflexivity|]. split; [reflexivity|].
  destruct (voiceResponse_digits_as_client verified req "client:alice"
              "0044201234567" eq_refl eq_refl Hne eq_refl
              (or_introl eq_refl))
    as (l & a & Hrun & _).
  exists l, a. exact Hrun.
Defined.


End TwilioEdgeFacts.

(** ** The reservation controller: what the handlers keep *)

Module ServiceFacts.

Import Js JsFacts Reservation Api.

(** *** Create *)



(** Whatever the body, [createReservation] leaves the rows of the table as
    they are or adds one under the next id, and the sequence does not go
    back. *)
Lemma createReservation_rows (body : gmap string value) (ts : Z) (s : db) :
  let out := createReservation body ts s in
  (rows out.1 = rows s ∧ code out.2 ≠ 201
   ∨ ∃ c, rows s !! next_id s = None
          ∧ rows out.1 = <[next_id s := c]> (rows s)
          ∧ out.2 = {| code := 201; success := true; message := None;
                       data := Some (One (mkReservation (next_id s) c));
                       error := None |}
          ∧ next_id out.1 = next_id s + 1
          ∧ createdAt c = ts ∧ updatedAt c = ts)
  ∧ next_id s ≤ next_id out.1.
Proof.
  unfold createReservation. destruct (_ || _); [split; [by left | done]|].
  unfold create. cbn [c_username c_reservationDate c_startTime c_endTime
    c_phoneNumber].
  repeat case_match; simplify_eq; simpl;
    try (split; [by left | lia]).
  split; [|lia]. right. eexists. repeat split.
  match goal with H : bool_decide _ = false |- _ =>
    apply bool_decide_eq_false in H; by apply eq_None_not_Some in H end.
Qed.

(** X7: [createReservation] refuses with 400 a body in which one of
    [username], [reservationDate], [startTime], [endTime] is missing, null,
    empty, [false] or 0, before anything reaches the store: the table and
    its sequence are as before. *)
Theorem createReservation_rejects_incomplete (body : gmap string value)
    (ts : Z) (s : db) :
  incomplete body →
  ∃ msg, createReservation body ts s
         = (s, {| code := 400; success := false; message := Some msg;
                  data := None; error := None |}).
Proof.
  intros (k & Hk & Hfalsy). unfold createReservation.
  assert (negb (truthy (field body "username"))
          || negb (truthy (field body "reservationDate"))
          || negb (truthy (field body "startTime"))
          || negb (truthy (field body "endTime")) = true) as ->;
    [|by eexists].
  repeat (apply elem_of_cons in Hk as [->|Hk];
          [rewrite Hfalsy; simpl; by rewrite ?orb_true_r|]).
  by apply elem_of_nil in Hk.
Qed.

Lemma createReservation_rejects_incomplete_witness :
  let body := delete "endTime" plain_body in
  incomplete body
  ∧ ∃ msg, createReservation body 5000 sample_db
           = (sample_db, {| code := 400; success := false;
                            message := Some msg; data := None;
                            error := None |}).
Proof.
  intros body.
  assert (H : incomplete body).
  { exists "endTime". split; [set_solver | reflexivity]. }
  split; [exact H|].
  exact (createReservation_rejects_incomplete body 5000 sample_db H).
Defined.



(** *** Ids as text

    A record's id reaches a client as a number and comes back as the text
    of that number in a path. *)

Lemma pretty_N_char_digit (m : N) :
  (m < 10)%N →
  is_digit (pretty_N_char m) = true
  ∧ Z.of_nat (nat_of_ascii (pretty_N_char m)) - 48 = Z.of_N m.
Proof.
  intros Hm.
  assert (m ∈ [0; 1; 2; 3; 4; 5; 6; 7; 8; 9]%N) as Hin.
  { destruct m as [|p]; [set_solver|].
    do 4 (destruct p as [p|p|]; try lia; try set_solver). }
  repeat (apply elem_of_cons in Hin as [->|Hin]; [by split|]).
  by apply elem_of_nil in Hin.
Qed.

Lemma decimal_from_app (a : Z) (d1 d2 : string) :
  decimal_from a (d1 +:+ d2) = decimal_from (decimal_from a d1) d2.
Proof. revert a. induction d1 as [|c d1 IH]; intros a; app_norm; simpl; auto. Qed.

Lemma all_app (c : ascii → bool) (d1 d2 : string) :
  all c (d1 +:+ d2) = all c d1 && all c d2.
Proof.
  induction d1 as [|x d1 IH]; app_norm; simpl; [done|].
  by rewrite IH, andb_assoc.
Qed.

Lemma app_assoc_string (a b c : string) : (a +:+ b) +:+ c = a +:+ b +:+ c.
Proof. induction a; app_norm; [done | by f_equal]. Qed.

(** The digits that [pretty] puts in front of [s] for [x] read back as
    [x]. *)
Lemma pretty_N_go_digits (x : N) (s : string) :
  ∃ d, pretty_N_go x s = d +:+ s
       ∧ all is_digit d = true
       ∧ (∀ a, decimal_from a d
               = a * 10 ^ Z.of_nat (String.length d) + Z.of_N x)
       ∧ ((0 < x)%N → d ≠ "").
Proof.
  revert s. induction (N.lt_wf_0 x) as [x _ IH]. intros s.
  destruct (decide (x = 0)%N) as [->|Hx].
  - exists "". rewrite pretty_N_go_0. repeat split; [|lia].
    intros a. simpl. lia.
  - rewrite pretty_N_go_step by lia.
    destruct (IH (x `div` 10)%N) with
      (s := String (pretty_N_char (x `mod` 10)) s)
      as (d & -> & Hd & Hval & _).
    { apply N.div_lt; lia. }
    destruct (pretty_N_char_digit (x `mod` 10)%N) as [Hc Hv].
    { apply N.mod_lt. lia. }
    exists (d +:+ String (pretty_N_char (x `mod` 10)) "").
    split; [by rewrite app_assoc_string|].
    split; [rewrite all_app, Hd; simpl; by rewrite Hc|].
    split; [|by destruct d].
    intros a. rewrite decimal_from_app, Hval, length_app. simpl.
    rewrite Hv, Nat2Z.inj_add, Z.pow_add_r by lia.
    rewrite (N.div_mod x 10) at 3 by lia. lia.
Qed.

Lemma pretty_pos_digits (p : positive) :
  digits (pretty (Z.pos p)) ∧ decimal (pretty (Z.pos p)) = Z.pos p.
Proof.
  change (pretty (Z.pos p)) with (pretty_N_go (N.pos p) "").
  destruct (pretty_N_go_digits (N.pos p) "") as (d & -> & Hd & Hval & Hne).
  rewrite app_empty_r. split; [split; [apply Hne; lia | done]|].
  unfold decimal. rewrite Hval. simpl. lia.
Qed.

(** Reading the decimal text of an integer gives the integer back. *)
Lemma parseInt_pretty (n : Z) :
  pretty n ≠ "" ∧ parseInt (pretty n) (Some 10) = Some n.
Proof.
  destruct n as [|p|p].
  - by split.
  - destruct (pretty_pos_digits p) as [Hd Hv]. split; [apply Hd|].
    rewrite <- (app_empty_r (pretty (Z.pos p))).
    rewrite IdFacts.parseInt10_digits by done. by rewrite Hv.
  - destruct (pretty_pos_digits p) as [Hd Hv].
    change (pretty (Z.neg p)) with ("-" +:+ pretty (Z.pos p)). app_norm.
    split; [done|]. rewrite <- (app_empty_r (pretty (Z.pos p))).
    rewrite IdFacts.parseInt10_signed by done. simpl. by rewrite Hv.
Qed.

(** X9: a reservation that [createReservation] returns can be fetched
    right away by the decimal text of its id: [getReservationById] answers
    200 with that same record. *)
Theorem create_then_get (body : gmap string value) (ts : Z) (s : db)
    (r : CallReservation) :
  data (createReservation body ts s).2 = Some (One r) →
  getReservationById (pretty (id r)) (createReservation body ts s).1
  = found r.
Proof.
  intros Hdata.
  destruct (parseInt_pretty (id r)) as [Hne Hparse].
  rewrite (IdFacts.getReservationById_parsed _ _ _ Hne Hparse).
  destruct (createReservation_rows body ts s) as [[[_ Hcode]|Hnew] _].
  - exfalso. revert Hdata Hcode. unfold createReservation.
    destruct (_ || _); [done|]. by destruct (create _ ts s) as [? [?|?]].
  - destruct Hnew as (c & _ & Hrows & Hrep & _).
    rewrite Hrep in Hdata. simpl in Hdata. injection Hdata as <-.
    simpl. by rewrite Hrows, lookup_insert_eq.
Qed.

Lemma create_then_get_witness :
  let out := createReservation dee_body 5000 sample_db in
  ∃ r, data out.2 = Some (One r)
       ∧ id r = 13
       ∧ getReservationById "13" out.1 = found r.
Proof.
  intros out. eexists. split; [reflexivity|]. split; [reflexivity|].
  exact (create_then_get dee_body 5000 sample_db _ eq_refl).
Defined.

(** *** Update *)




(** Whatever the request, [updateReservation] leaves the table as it is or
    rewrites one row that was there. *)
Lemma updateReservation_rows (id : string) (body : update_body) (ts : Z)
    (s : db) :
  let out := updateReservation id body ts s in
  out.1 = s
  ∨ ∃ i c d, rows s !! i = Some c
      ∧ out.1 = Db (<[i := apply_data d ts c]> (rows s)) (next_id s).
Proof.
  unfold updateReservation, update.
  destruct (parseInt id None) as [i|]; [|by left].
  destruct body as [d|]; [|by left].
  destruct (rows s !! i) as [c|] eqn:Hrow; [|by left].
  right. by exists i, c, d.
Qed.





(** *** Sequences of requests *)

Lemma sweep_rows (now : clock) (ts : Z) (s : db) :
  let out := updateExpiredReservations now ts s in
  next_id out.1 = next_id s
  ∧ ∀ i, rows out.1 !! i = rows s !! i
         ∨ ∃ c, rows s !! i = Some c
                ∧ rows out.1 !! i = Some (completed ts c).
Proof.
  destruct (SweepFacts.sweep_outcome now ts s)
    as (m & rep & Hrun & Hin & Hout & _).
  simpl. rewrite Hrun. split; [done|]. intros i. simpl.
  destruct (decide (i ∈ id <$> findMany
              (expired_where (today now) (currentTime now)) s)) as [Hi|Hi].
  - apply list_elem_of_fmap in Hi as (r & -> & Hr). right.
    exists (cols r). split; [|by apply Hin].
    by apply SweepFacts.elem_of_findMany in Hr as [? _].
  - left. by apply Hout.
Qed.


Lemma serve_next_id (c : call) (s : db) : next_id s ≤ next_id (serve c s).1.
Proof.
  destruct c as [body ts|name|id|id body ts|now ts]; simpl; try lia.
  - apply createReservation_rows.
  - destruct (updateReservation_rows id body ts s) as [->|Hrow]; [lia|].
    destruct Hrow as (j & c0 & d & _ & ->). simpl. lia.
  - destruct (sweep_rows now ts s) as [-> _]. lia.
Qed.

Lemma run_next_id (cs : list call) (s : db) : next_id s ≤ next_id (run cs s).
Proof.
  revert s. induction cs as [|c cs IH]; intros s; simpl; [lia|].
  etrans; [apply serve_next_id | apply IH].
Qed.






Lemma created_id (body : gmap string value) (ts : Z) (s : db)
    (r : CallReservation) :
  data (createReservation body ts s).2 = Some (One r) →
  id r = next_id s ∧ next_id (createReservation body ts s).1 = next_id s + 1.
Proof.
  intros Hdata.
  destruct (createReservation_rows body ts s) as [[[_ Hcode]|Hnew] _].
  - exfalso. revert Hdata Hcode. unfold createReservation.
    destruct (_ || _); [done|]. by destruct (create _ ts s) as [? [?|?]].
  - destruct Hnew as (c & _ & _ & Hrep & Hnext & _).
    rewrite Hrep in Hdata. simpl in Hdata. by injection Hdata as <-.
Qed.

(** X13: ids are not reused: of two reservations that [createReservation]
    returns, with any requests served in between, the later one has the
    greater id, also when the earlier row is no longer what it was. *)
Theorem created_ids_increase (s : db) (body1 body2 : gmap string value)
    (ts1 ts2 : Z) (cs : list call) (r1 r2 : CallReservation) :
  let s1 := (createReservation body1 ts1 s).1 in
  data (createReservation body1 ts1 s).2 = Some (One r1) →
  data (createReservation body2 ts2 (run cs s1)).2 = Some (One r2) →
  id r1 < id r2.
Proof.
  intros s1 H1 H2.
  apply created_id in H1 as [-> Hnext]. apply created_id in H2 as [-> _].
  pose proof (run_next_id cs s1). subst s1. lia.
Qed.

Lemma created_ids_increase_witness :
  ∃ r1 r2,
    data (createReservation dee_body 100 empty_db).2 = Some (One r1)
    ∧ data (createReservation plain_body 500
              (run (tail sample_calls)
                 (createReservation dee_body 100 empty_db).1)).2
      = Some (One r2)
    ∧ id r1 < id r2.
Proof.
  eexists _, _. split; [reflexivity|]. split; [reflexivity|].
  exact (created_ids_increase empty_db dee_body plain_body 100 500
           (tail sample_calls) _ _ eq_refl eq_refl).
Defined.



(** *** Listing *)

Lemma date_le_transitive : Transitive date_le.
Proof. intros a b c. unfold date_le. apply transitivity. Qed.

Lemma date_le_total : Total date_le.
Proof. intros a b. unfold date_le. apply total, _. Qed.

(** X15: [getUserReservations] always answers 200, with the reservations
    of the table that carry the given username, each once, and no other,
    in ascending order of [reservationDate]; for a username without
    reservations the list is empty, not an error. *)
Theorem getUserReservations_lists (name : string) (s : db) :
  ∃ rs,
    getUserReservations name s
    = {| code := 200; success := true; message := None;
         data := Some (Many rs); error := None |}
    ∧ StronglySorted date_le rs
    ∧ NoDup (id <$> rs)
    ∧ (∀ r, r ∈ rs
            ↔ rows s !! id r = Some (cols r) ∧ username (cols r) = name)
    ∧ ((∀ i c, rows s !! i = Some c → username c ≠ name) → rs = []).
Proof.
  exists (findManyByDate (of_user name) s). split; [done|].
  unfold findManyByDate.
  pose proof (merge_sort_Permutation date_le (findMany (of_user name) s))
    as Hperm.
  assert (Hin : ∀ r, r ∈ merge_sort date_le (findMany (of_user name) s)
                ↔ rows s !! id r = Some (cols r) ∧ username (cols r) = name).
  { intros r. rewrite Hperm, SweepFacts.elem_of_findMany.
    unfold of_user. by rewrite String.eqb_eq. }
  split.
  { apply (@StronglySorted_merge_sort _ date_le _ date_le_transitive
             date_le_total). }
  split. { rewrite Hperm. apply SweepFacts.NoDup_findMany. }
  split; [exact Hin|].
  intros Hnone.
  destruct (merge_sort date_le (findMany (of_user name) s)) as [|r rs] eqn:Hl;
    [done|].
  assert (Hr : r ∈ r :: rs) by left.
  apply Hin in Hr as [Hrow Hname]. by destruct (Hnone _ _ Hrow).
Qed.

(** *** The reply of a sweep *)

(** X16: the reply of [updateExpiredReservations] lists the completed
    records: exactly the reservations that were ongoing and overdue, each
    once and as it is stored after the sweep; its message counts them, or
    says that none was found. *)
Theorem sweep_reports (now : clock) (ts : Z) (s : db) :
  let out := updateExpiredReservations now ts s in
  ∃ rs,
    data out.2 = Some (Many rs)
    ∧ NoDup (id <$> rs)
    ∧ (∀ r, r ∈ rs ↔ ∃ c, rows s !! id r = Some c
                          ∧ is_expired (today now) (currentTime now) c
                          ∧ cols r = completed ts c)
    ∧ (∀ r, r ∈ rs → rows out.1 !! id r = Some (cols r))
    ∧ message out.2
      = Some (match rs with
              | [] => "No expired reservations found"
              | _ => "Updated " +:+ pretty (length rs)
                     +:+ " expired reservations"
              end).
Proof.
  intros out. subst out.
  set (found := findMany (expired_where (today now) (currentTime now)) s).
  assert (Hids : id <$> (swept ts <$> found) = id <$> found).
  { rewrite <- list_fmap_compose. by apply list_fmap_ext. }
  assert (Hmem : ∀ r, r ∈ swept ts <$> found
                 ↔ ∃ c, rows s !! id r = Some c
                        ∧ is_expired (today now) (currentTime now) c
                        ∧ cols r = completed ts c).
  { intros r. rewrite list_elem_of_fmap. split.
    - intros (r0 & -> & Hr0). apply SweepFacts.elem_of_findMany in Hr0
        as [Hrow Hw]. apply SweepFacts.expired_where_iff in Hw.
      by exists (cols r0).
    - intros (c & Hrow & Hexp & Hcols). exists (mkReservation (id r) c).
      split; [destruct r; simpl in *; by rewrite Hcols|].
      apply SweepFacts.elem_of_findMany. split; [done|].
      by apply SweepFacts.expired_where_iff. }
  exists (swept ts <$> found).
  unfold updateExpiredReservations. fold found.
  destruct found as [|r0 rest] eqn:Hfound.
  - simpl. split; [done|]. split; [constructor|]. split; [exact Hmem|].
    split; [|done]. by intros r ?%elem_of_nil.
  - rewrite <- Hfound in *.
    destruct (SweepFacts.update_each_spec found ts s)
      as (m & Hrun & Hin & Hout).
    { apply SweepFacts.NoDup_findMany. }
    { intros r Hr. by apply SweepFacts.elem_of_findMany in Hr as [? _]. }
    replace (length found =? 0)%nat with false by by rewrite Hfound.
    unfold swept in *. rewrite Hrun, SweepFacts.promise_all_inr. simpl.
    split; [done|]. split; [rewrite Hids; apply SweepFacts.NoDup_findMany|].
    split; [exact Hmem|]. split.
    + intros r (r1 & -> & Hr1)%list_elem_of_fmap. simpl. by apply Hin.
    + by rewrite Hfound.
Qed.

(** *** Ids with blanks in front *)

(** X17: [getReservationById] skips white space in front of the id, since
    [parseInt] does: an id with a blank, tab or line break before it gets
    the reply of the id without it. *)
Theorem getReservationById_skips_blank (c : ascii) (id : string) (s : db) :
  is_white c = true → id ≠ "" →
  getReservationById (String c id) s = getReservationById id s.
Proof.
  intros Hc Hne. unfold getReservationById.
  apply String.eqb_neq in Hne. rewrite Hne.
  change (String.eqb (String c id) "") with false. cbv iota.
  assert (parseInt (String c id) (Some 10) = parseInt id (Some 10)) as ->;
    [|done].
  unfold parseInt. cbn [trim_start]. by rewrite Hc.
Qed.

Lemma getReservationById_skips_blank_witness :
  is_white " " = true ∧ "12" ≠ ""
  ∧ getReservationById " 12" sample_db = getReservationById "12" sample_db
  ∧ code (getReservationById " 12" sample_db) = 200.
Proof.
  assert (Hne : "12" ≠ "") by discriminate.
  split; [reflexivity|]. split; [exact Hne|]. split; [|reflexivity].
  exact (getReservationById_skips_blank " " "12" sample_db eq_refl Hne).
Defined.

(** *** The clock of the sweep *)

Lemma below_100 (P : nat → Prop) :
  Forall P (seq 0 100) → ∀ n, (n < 100)%nat → P n.
Proof.
  intros Hall n Hn. rewrite Forall_forall in Hall. apply Hall.
  apply elem_of_seq. lia.
Qed.

Lemma pad2_chars (n : nat) :
  (n < 100)%nat →
  padStart0 2 (pretty n)
  = String (digit_char (n / 10)) (String (digit_char (n mod 10)) "").
Proof.
  revert n. apply below_100.
  apply (bool_decide_unpack _). vm_compute. exact I.
Qed.

Lemma digit_char_compare (a b : nat) :
  (a < 100)%nat → (b < 100)%nat →
  match Ascii.compare (digit_char (a / 10)) (digit_char (b / 10)) with
  | Eq => Ascii.compare (digit_char (a mod 10)) (digit_char (b mod 10))
  | c => c
  end = (a ?= b)%nat.
Proof.
  intros Ha Hb. revert b Hb. revert a Ha.
  apply (below_100 (λ a, ∀ b, (b < 100)%nat → _)).
  assert (Forall (λ a, Forall (λ b,
            match Ascii.compare (digit_char (a / 10)) (digit_char (b / 10)) with
            | Eq => Ascii.compare (digit_char (a mod 10))
                      (digit_char (b mod 10))
            | c => c
            end = (a ?= b)%nat) (seq 0 100)) (seq 0 100)) as Htable.
  { apply (bool_decide_unpack _). vm_compute. exact I. }
  eapply Forall_impl; [exact Htable|]. intros a Hrow. by apply below_100.
Qed.

Lemma compare_cons (c1 c2 : ascii) (s1 s2 : string) :
  String.compare (String c1 s1) (String c2 s2)
  = match Ascii.compare c1 c2 with
    | Eq => String.compare s1 s2
    | c => c
    end.
Proof. reflexivity. Qed.

(** Two digits in front decide the order of two strings as the numbers
    they write do. *)
Lemma pad2_compare (a b : nat) (x y : string) :
  (a < 100)%nat → (b < 100)%nat →
  String.compare (padStart0 2 (pretty a) +:+ x) (padStart0 2 (pretty b) +:+ y)
  = match (a ?= b)%nat with
    | Eq => String.compare x y
    | c => c
    end.
Proof.
  intros Ha Hb. rewrite !pad2_chars by done. app_norm.
  rewrite !compare_cons. pose proof (digit_char_compare a b Ha Hb) as Htable.
  destruct (Ascii.compare (digit_char (a / 10)) (digit_char (b / 10)));
    destruct (Ascii.compare (digit_char (a mod 10)) (digit_char (b mod 10)));
    by rewrite <- Htable.
Qed.

Lemma hhmm_compare (h1 m1 h2 m2 : nat) :
  (h1 < 100)%nat → (m1 < 100)%nat → (h2 < 100)%nat → (m2 < 100)%nat →
  String.compare (hhmm h1 m1) (hhmm h2 m2)
  = match (h1 ?= h2)%nat with
    | Eq => (m1 ?= m2)%nat
    | c => c
    end.
Proof.
  intros H1 M1 H2 M2. unfold hhmm. rewrite pad2_compare by done.
  destruct (h1 ?= h2)%nat; try done. app_norm. rewrite compare_cons.
  change (Ascii.compare ":" ":") with Eq. cbv iota.
  rewrite <- (app_empty_r (padStart0 2 (pretty m1))).
  rewrite <- (app_empty_r (padStart0 2 (pretty m2))).
  rewrite pad2_compare by done. by destruct (m1 ?= m2)%nat.
Qed.

Lemma lt_irrefl (a : string) : lt a a = false.
Proof.
  unfold lt, String.ltb.
  assert (String.compare a a = Eq) as ->; [|done].
  induction a as [|c a IH]; [done|]. rewrite compare_cons, IH.
  unfold Ascii.compare. by rewrite N.compare_refl.
Qed.

(** X18: the clock's time of day is written with two digits each for the
    hour and the minute, so its order as text is the order of the day: an
    ongoing reservation dated today whose end time is written that way is
    completed by the sweep exactly when the end time is earlier than the
    time of the clock; and the time has five characters. *)
Theorem sweep_compares_time_of_day (now : clock) (i : Z) (c : columns)
    (h m : nat) :
  (hours now < 24)%nat → (minutes now < 60)%nat →
  (h < 24)%nat → (m < 60)%nat →
  status c = "ongoing" → reservationDate c = today now →
  endTime c = hhmm h m →
  String.length (currentTime now) = 5%nat
  ∧ (expired_where (today now) (currentTime now) (mkReservation i c) = true
     ↔ (h < hours now ∨ h = hours now ∧ m < minutes now)%nat).
Proof.
  intros Hh Hm Hh' Hm' Hst Hdate Hend. split.
  - unfold currentTime. rewrite !pad2_chars by lia. reflexivity.
  - unfold expired_where. cbn [cols]. rewrite Hst, Hdate, Hend.
    rewrite lt_irrefl, !String.eqb_refl. cbn [andb orb].
    change (currentTime now) with (hhmm (hours now) (minutes now)).
    unfold lt, String.ltb. rewrite hhmm_compare by lia.
    destruct (Nat.compare_spec h (hours now));
      destruct (Nat.compare_spec m (minutes now)); split; try done;
      try lia; intros [?|[? ?]]; lia.
Qed.

Lemma sweep_compares_time_of_day_witness :
  let c := {| username := "eve"; reservationDate := "2025-01-10";
              startTime := "09:00"; endTime := hhmm 9 5;
              status := "ongoing"; phoneNumber := None;
              callDuration := None; createdAt := 1; updatedAt := 1 |} in
  (hours sample_clock < 24)%nat ∧ (minutes sample_clock < 60)%nat
  ∧ status c = "ongoing" ∧ reservationDate c = today sample_clock
  ∧ endTime c = hhmm 9 5
  ∧ expired_where (today sample_clock) (currentTime sample_clock)
      (mkReservation 3 c) = true.
Proof.
  intros c.
  assert (Hh : (hours sample_clock < 24)%nat) by (simpl; lia).
  assert (Hm : (minutes sample_clock < 60)%nat) by (simpl; lia).
  assert (Hh' : (9 < 24)%nat) by lia.
  assert (Hm' : (5 < 60)%nat) by lia.
  split; [exact Hh|]. split; [exact Hm|].
  split; [reflexivity|]. split; [reflexivity|]. split; [reflexivity|].
  destruct (sweep_compares_time_of_day sample_clock 3 c 9 5 Hh Hm Hh' Hm'
              eq_refl eq_refl eq_refl) as [_ Hiff].
  apply Hiff. left. simpl. lia.
Defined.


(** X19: [today] is the text of [toISOString()] up to its first [T]: the
    date part of a reading such as 2025-01-10T10:30:00.000Z, whatever
    follows the [T]. *)
Theorem today_is_date_part (d rest : string) (h m : nat) :
  all (λ c, negb (Ascii.eqb c "T")) d = true →
  today {| iso := d +:+ "T" +:+ rest; hours := h; minutes := m |} = d.
Proof.
  unfold today. cbn [iso]. induction d as [|c d IH]; app_norm; [done|].
  cbn [all split_head]. intros [Hc Hd]%andb_true_iff.
  apply negb_true_iff in Hc. rewrite Hc. f_equal. by apply IH.
Qed.

Lemma today_is_date_part_witness :
  all (λ c, negb (Ascii.eqb c "T")) "2025-01-10" = true
  ∧ today sample_clock = "2025-01-10".
Proof.
  split; [reflexivity|].
  exact (today_is_date_part "2025-01-10" "10:30:00.000Z" 10 30 eq_refl).
Defined.

End ServiceFacts.
